(** * Video upload backend: a shallow embedding of [api/main.py]

    The development follows the source file top-down: the constants, the
    directory preparation [ensure_upload_dir_exists], the dependency
    [_validate_content_length], and the handler [upload_video] with its
    streaming loop.  Python values are embedded as follows.

    - [int] is [Z]; [len] of a [bytes] object is [Z.of_nat (length _)].
    - [bytes] is [list byte].
    - a header value is a [string]: Starlette decodes header bytes as
      latin-1, so every character is one code point below 256.
    - any other [str] (the multipart file name, a path component) is the
      list of its Unicode code points, [list N].
    - an exception is a value of [exn] (builtin classes, with the text that
      [str(exc)] gives) or an [HTTPException]; a call that can raise returns
      a sum, [inl] for the raised exception and [inr] for the value.
    - the file system below [UPLOAD_DIR] and the uploaded stream are explicit
      state, threaded through the calls.  What the operating system decides
      (whether [mkdir], [chmod], [open], [write], [unlink] are refused) is
      read from an [environment].

    The model stands on these assumptions.
    - A write reaches the disk at once (there is no buffer between
      [out_file] and the file), and closing [out_file] and closing the
      upload never raise.
    - The platform is POSIX, so that [os.path] is [posixpath].
    - Every exception a call raises is an instance of [Exception].  What
      lies outside [Exception] (the cancellation of the request at an
      [await], an interrupt) is not caught by [except Exception] and is not
      modelled: a cancelled request is outside the development.
    - The path [UPLOAD_DIR] is a directory itself, not a symbolic link to
      one, and its entries are regular files and subdirectories.  This
      matters for the file names ["."] and [".."] only, whose destination
      is the upload directory or its parent.
    - The handler is called: the framework has parsed the body and supplied
      the [file] parameter.  Its own answers for a body it refuses (the 422
      for a missing file, the 400 for a malformed body) are not modelled. *)

From Stdlib Require Import ZArith NArith Ascii String List Lia.
From stdpp Require Import base option list gmap strings pretty.

Local Open Scope Z_scope.

(** ** Python values *)

Abbreviation str := (list N) (only parsing).
Abbreviation bytes := (list Byte.byte) (only parsing).

(** The code points of a string literal of this file (ASCII only). *)
Definition py (s : string) : str :=
  map (fun a : ascii => N_of_ascii a) (list_ascii_of_string s).

(** [len] of a sequence. *)
Definition len {A : Type} (l : list A) : Z := Z.of_nat (length l).

(** The classes of the exceptions that the runtime and the operating system
    calls of the program raise.  All of them are subclasses of [Exception]:
    [except Exception] catches every value of [exn].  Classes outside
    [Exception], such as [asyncio.CancelledError], are not modelled. *)
Inductive exn_class : Type :=
  | PermissionError
  | FileNotFoundError
  | FileExistsError
  | IsADirectoryError
  | NotADirectoryError
  | OSError
  | ValueError.

(** A builtin exception: its class and the text of [str(exc)].  For the
    errors the model raises itself the text is a short form of the one the
    operating system gives. *)
Record exn : Type := Exn { exn_cls : exn_class; exn_msg : string }.

(** What a call of this program can raise: a builtin exception, or the
    framework's [HTTPException(status_code, detail)]. *)
Inductive raised : Type :=
  | Builtin (e : exn)
  | HTTPException (status_code : Z) (detail : string).

(** [isinstance(e, PermissionError)] *)
Definition is_PermissionError (e : exn) : bool :=
  match exn_cls e with PermissionError => true | _ => false end.

(** [isinstance(e, ValueError)] *)
Definition is_ValueError (e : exn) : bool :=
  match exn_cls e with ValueError => true | _ => false end.

(** ** Constants (lines 10-12 and 180) *)

Definition MAX_VIDEO_SIZE_BYTES : Z := 500 * 1024 * 1024.

(** The size asked of each read (line 180). *)
Definition chunk_size : Z := 1024 * 1024.

Definition HTTP_400_BAD_REQUEST : Z := 400.
Definition HTTP_413_REQUEST_ENTITY_TOO_LARGE : Z := 413.
Definition HTTP_500_INTERNAL_SERVER_ERROR : Z := 500.

(** ** Builtins on strings *)

(** [str.isspace] on one code point (CPython's [Py_UNICODE_ISSPACE]). *)
Definition py_isspace (c : N) : bool :=
  (((0x09 <=? c) && (c <=? 0x0d)) || ((0x1c <=? c) && (c <=? 0x20))
   || (c =? 0x85) || (c =? 0xa0) || (c =? 0x1680)
   || ((0x2000 <=? c) && (c <=? 0x200a))
   || (c =? 0x2028) || (c =? 0x2029) || (c =? 0x202f) || (c =? 0x205f)
   || (c =? 0x3000))%N.

Fixpoint lstrip (s : str) : str :=
  match s with
  | c :: s' => if py_isspace c then lstrip s' else s
  | [] => []
  end.

Definition rstrip (s : str) : str := rev (lstrip (rev s)).

(** [s.strip()] *)
Definition strip (s : str) : str := rstrip (lstrip s).

(** The path separator of [posixpath], ['/']. *)
Definition sep : N := 47%N.

(** [p.rfind(c)]: the highest index of [c] in [p], or [-1]. *)
Fixpoint rfind (c : N) (p : str) : Z :=
  match p with
  | [] => -1
  | x :: p' =>
      let r := rfind c p' in
      if 0 <=? r then r + 1 else if (x =? c)%N then 0 else -1
  end.

(** [os.path.basename(p)]: [i = p.rfind(sep) + 1; return p[i:]]. *)
Definition basename (p : str) : str :=
  let i := rfind sep p + 1 in
  drop (Z.to_nat i) p.

(** *** [int(s)] on a header value

    [int] skips white space at both ends, reads an optional sign and then
    decimal digits, where one underscore may stand between two digits.  On a
    latin-1 string the white space it skips is tab to carriage return,
    space, U+0085 and U+00A0 (not U+001C to U+001F, which [str.isspace]
    accepts), and the only digits are ['0'] to ['9'].  More digits than
    [int_max_str_digits] are refused.  Every refusal is a [ValueError]. *)

Definition int_space (a : ascii) : bool :=
  let c := N_of_ascii a in
  (((0x09 <=? c) && (c <=? 0x0d)) || (c =? 0x20) || (c =? 0x85) || (c =? 0xa0))%N.

Definition digit_val (a : ascii) : option Z :=
  let c := N_of_ascii a in
  if ((48 <=? c) && (c <=? 57))%N then Some (Z.of_N c - 48) else None.

Fixpoint all_space (s : string) : bool :=
  match s with
  | EmptyString => true
  | String a s' => int_space a && all_space s'
  end.

Fixpoint int_lstrip (s : string) : string :=
  match s with
  | String a s' => if int_space a then int_lstrip s' else s
  | EmptyString => EmptyString
  end.

(** The digits after the first one: the value so far and the number of
    digits read so far are carried along. *)
Fixpoint int_digits (s : string) (acc : Z) (n : nat) : option (Z * nat) :=
  match s with
  | EmptyString => Some (acc, n)
  | String a s' =>
      match digit_val a with
      | Some d => int_digits s' (acc * 10 + d) (S n)
      | None =>
          if Ascii.eqb a "_"%char then
            match s' with
            | String a' s'' =>
                match digit_val a' with
                | Some d => int_digits s'' (acc * 10 + d) (S n)
                | None => None
                end
            | EmptyString => None
            end
          else if all_space s then Some (acc, n) else None
      end
  end.

Definition int_body (s : string) : option (Z * nat) :=
  match s with
  | String a _ => match digit_val a with Some _ => int_digits s 0 0%nat | None => None end
  | EmptyString => None
  end.

(** CPython's default limit on the digits of a decimal literal. *)
Definition int_max_str_digits : nat := 4300.

Definition invalid_literal : exn :=
  Exn ValueError "invalid literal for int() with base 10".

Definition too_many_digits : exn :=
  Exn ValueError "Exceeds the limit (4300 digits) for integer string conversion".

Definition int (s : string) : exn + Z :=
  let s1 := int_lstrip s in
  let '(sign, s2) :=
    match s1 with
    | String "+"%char r => (1, r)
    | String "-"%char r => (-1, r)
    | _ => (1, s1)
    end in
  match int_body s2 with
  | Some (v, n) =>
      if (int_max_str_digits <? n)%nat then inl too_many_digits
      else inr (sign * v)
  | None => inl invalid_literal
  end.


(** ** The request and the declared-size pre-check (lines 90-115) *)

(** The headers of a request, as the server hands them over: lower-case
    names, in the order received. *)
Record Request : Type := { headers : list (string * string) }.

(** [request.headers.get(key)]: the value of the first header of that name. *)
Fixpoint headers_get (key : string) (hs : list (string * string)) : option string :=
  match hs with
  | [] => None
  | (k, v) :: hs' => if String.eqb k key then Some v else headers_get key hs'
  end.

(** The detail of both 413 errors: the f-string with the constant filled in. *)
Definition too_large_detail : string :=
  "File too large. Maximum allowed size is " +:+ pretty MAX_VIDEO_SIZE_BYTES
  +:+ " bytes (500MB).".

Definition _validate_content_length (request : Request) : raised + option Z :=
  match headers_get "content-length" (headers request) with
  | None => inr None
  | Some content_length =>
      match int content_length with
      | inl e =>
          if is_ValueError e
          then inl (HTTPException HTTP_400_BAD_REQUEST "Invalid Content-Length header.")
          else inl (Builtin e)
      | inr size =>
          if MAX_VIDEO_SIZE_BYTES <? size
          then inl (HTTPException HTTP_413_REQUEST_ENTITY_TOO_LARGE too_large_detail)
          else inr (Some size)
      end
  end.

(** ** The file system below [UPLOAD_DIR] *)

(** An entry of the upload directory: a regular file with its content, or a
    subdirectory. *)
Inductive node : Type :=
  | File (content : bytes)
  | Dir.

(** The upload directory: its identity (inode number), its permission bits
    and its entries by name.  The names ["."] and [".."] are not entries:
    they always denote the directory itself and its parent. *)
Record directory : Type := Directory {
  d_ino : N;
  d_mode : N;
  d_entries : gmap (str) node
}.

(** The state of the path [UPLOAD_DIR]: [None] when there is no such
    directory. *)
Abbreviation disk := (option directory) (only parsing).

(** The entry called [name], if the directory exists and has one. *)
Definition entry (name : str) (d : disk) : option node :=
  match d with
  | Some dir => d_entries dir !! name
  | None => None
  end.

(** The number of bytes the file called [name] holds ([0] when there is no
    such file). *)
Definition bytes_on_disk (name : str) (d : disk) : Z :=
  match entry name d with
  | Some (File content) => len content
  | _ => 0
  end.

(** What the operating system decides during one request: the exception, if
    any, with which it refuses each call.  [mkdir_fault] is consulted when
    the directory has to be created, [write_fault k] at the write number [k]
    (from [0]) of the request. *)
Record environment : Type := Environment {
  umask : N;
  fresh_ino : N;
  mkdir_fault : option exn;
  chmod_fault : option exn;
  open_fault : option exn;
  write_fault : nat -> option exn;
  unlink_fault : option exn
}.

(** The uploaded file as the framework hands it to the handler.  [pending]
    lists the outcomes of the successive calls of [file.read(chunk_size)]:
    the chunk returned or the exception raised; once the list is used up,
    [read] returns [b""]. *)
Record UploadFile : Type := mkUploadFile {
  file_filename : option (str);
  file_content_type : option string;
  pending : list (exn + bytes);
  closed : bool
}.

Record UploadSuccessResponse : Type := mkUploadSuccessResponse {
  filename : str;
  size_bytes : Z;
  message : string
}.

Definition dot : str := py ".".
Definition dotdot : str := py "..".

(** [name] is ["."] or [".."]. *)
Definition is_dot_name (name : str) : bool :=
  bool_decide (name = dot) || bool_decide (name = dotdot).

(** [name] holds a NUL character. *)
Definition has_nul (name : str) : bool := existsb (N.eqb 0) name.

Section Handler.

Context (env : environment).

(** [UPLOAD_DIR.mkdir(parents=True, exist_ok=True)]: nothing to do when the
    directory exists; otherwise it is created empty, with the default mode
    [0o777] masked by the process umask. *)
Definition mkdir (d : disk) : disk * (exn + unit) :=
  match d with
  | Some _ => (d, inr tt)
  | None =>
      match mkdir_fault env with
      | Some e => (None, inl e)
      | None =>
          (Some (Directory (fresh_ino env) (N.ldiff 0x1ff (umask env)) ∅), inr tt)
      end
  end.

(** [os.chmod(UPLOAD_DIR, mode)] *)
Definition chmod (mode : N) (d : disk) : disk * (exn + unit) :=
  match d with
  | None => (None, inl (Exn FileNotFoundError "No such file or directory: '/upload'"))
  | Some dir =>
      match chmod_fault env with
      | Some e => (d, inl e)
      | None => (Some (Directory (d_ino dir) mode (d_entries dir)), inr tt)
      end
  end.

(** [0o700] *)
Definition mode_0o700 : N := 0x1c0.

(** Lines 15-31. *)
Definition ensure_upload_dir_exists (d : disk)
  : disk * (raised + unit) :=
  let failed (exc : exn) :=
    HTTPException HTTP_500_INTERNAL_SERVER_ERROR
      ("Failed to prepare upload directory: " +:+ exn_msg exc) in
  match mkdir d with
  | (d1, inl exc) => (d1, inl (failed exc))
  | (d1, inr _) =>
      match chmod mode_0o700 d1 with
      | (d2, inl exc) =>
          if is_PermissionError exc then (d2, inr tt)    (* except PermissionError: pass *)
          else (d2, inl (failed exc))                    (* except Exception as exc *)
      | (d2, inr _) => (d2, inr tt)
      end
  end.

(** The exception, if any, with which [(UPLOAD_DIR / name).open("wb")] is
    refused. *)
Definition open_error (name : str) (d : disk) : option exn :=
  if has_nul name then Some (Exn ValueError "embedded null byte")
  else match d with
  | None => Some (Exn FileNotFoundError "No such file or directory")
  | Some dir =>
      if is_dot_name name then Some (Exn IsADirectoryError "Is a directory")
      else match d_entries dir !! name with
      | Some Dir => Some (Exn IsADirectoryError "Is a directory")
      | _ => open_fault env
      end
  end.

(** [(UPLOAD_DIR / name).open("wb")]: the file is created, or truncated when
    it exists. *)
Definition open_wb (name : str) (d : disk)
  : disk * (exn + unit) :=
  match open_error name d with
  | Some e => (d, inl e)
  | None =>
      match d with
      | Some dir =>
          (Some (Directory (d_ino dir) (d_mode dir) (<[name := File []]> (d_entries dir))),
           inr tt)
      | None => (d, inr tt)
      end
  end.

(** [out_file.write(chunk)], the write number [k] of the request: the chunk
    is appended to the file; a refused write appends nothing. *)
Definition write (name : str) (k : nat) (chunk : bytes)
  (d : disk) : disk * (exn + unit) :=
  match write_fault env k with
  | Some e => (d, inl e)
  | None =>
      match d with
      | Some dir =>
          match d_entries dir !! name with
          | Some (File content) =>
              (Some (Directory (d_ino dir) (d_mode dir)
                       (<[name := File (content ++ chunk)]> (d_entries dir))),
               inr tt)
          | _ => (d, inr tt)
          end
      | None => (d, inr tt)
      end
  end.

(** [(UPLOAD_DIR / name).unlink(missing_ok=True)].  For ["."] and [".."] the
    path is the upload directory or its parent, a directory proper by the
    assumption above, and the unlink of a directory is refused. *)
Definition unlink (name : str) (d : disk)
  : disk * (exn + unit) :=
  match d with
  | None => (d, inr tt)
  | Some dir =>
      if is_dot_name name then (d, inl (Exn IsADirectoryError "Is a directory"))
      else match d_entries dir !! name with
      | None => (d, inr tt)
      | Some Dir => (d, inl (Exn IsADirectoryError "Is a directory"))
      | Some (File _) =>
          match unlink_fault env with
          | Some e => (d, inl e)
          | None =>
              (Some (Directory (d_ino dir) (d_mode dir) (delete name (d_entries dir))),
               inr tt)
          end
      end
  end.

(** [await file.close()] *)
Definition close (file : UploadFile) : UploadFile :=
  mkUploadFile (file_filename file) (file_content_type file) (pending file) true.

(** One pass through the body of [while True:] (lines 185-200), after
    [file.read(chunk_size)] has had the outcome [r].  The result is the new
    disk and either the exception raised, or [None] for [break], or the new
    [total_written] when the loop goes on. *)
Definition loop_body (dest : str) (k : nat) (total_written : Z)
  (d : disk) (r : exn + bytes)
  : disk * (raised + option Z) :=
  match r with
  | inl exc => (d, inl (Builtin exc))
  | inr chunk =>
      match chunk with
      | [] => (d, inr None)                                  (* if not chunk: break *)
      | _ :: _ =>
          let total_written := total_written + len chunk in
          if MAX_VIDEO_SIZE_BYTES <? total_written then
            (* out_file.close(); the unlink is tried and its failure ignored *)
            let d1 := fst (unlink dest d) in
            (d1, inl (HTTPException HTTP_413_REQUEST_ENTITY_TOO_LARGE too_large_detail))
          else
            match write dest k chunk d with
            | (d1, inl exc) => (d1, inl (Builtin exc))
            | (d1, inr _) => (d1, inr (Some total_written))
            end
      end
  end.

(** The loop of lines 184-200 over the outcomes [reads] of the reads still to
    come; [k] counts the writes made so far.  The result is the disk, the
    reads not consumed, and the exception raised or the final
    [total_written]. *)
Fixpoint write_loop (dest : str) (reads : list (exn + bytes))
  (k : nat) (total_written : Z) (d : disk)
  : disk * list (exn + bytes) * (raised + Z) :=
  match reads with
  | [] => (d, [], inr total_written)        (* read returns b"": break *)
  | r :: rest =>
      match loop_body dest k total_written d r with
      | (d1, inl exc) => (d1, rest, inl exc)
      | (d1, inr None) => (d1, rest, inr total_written)
      | (d1, inr (Some t)) => write_loop dest rest (S k) t d1
      end
  end.

(** The disk after each pass through the loop body, in order. *)
Fixpoint loop_disks (dest : str) (reads : list (exn + bytes))
  (k : nat) (total_written : Z) (d : disk) : list (disk) :=
  match reads with
  | [] => []
  | r :: rest =>
      match loop_body dest k total_written d r with
      | (d1, inr (Some t)) => d1 :: loop_disks dest rest (S k) t d1
      | (d1, _) => [d1]
      end
  end.

(** The body of [try:] (lines 183-200): the [with] statement.  Leaving it
    closes [out_file], which changes nothing on the modelled disk. *)
Definition stream_to_disk (dest : str) (file : UploadFile) (d : disk)
  : disk * UploadFile * (raised + Z) :=
  match open_wb dest d with
  | (d1, inl exc) => (d1, file, inl (Builtin exc))
  | (d1, inr _) =>
      let '(d2, rest, r) := write_loop dest (pending file) 0 0 d1 in
      (d2, mkUploadFile (file_filename file) (file_content_type file) rest (closed file), r)
  end.

(** The [try] statement of lines 182-215 with its handlers and its [finally]
    clause; the result is [total_written]. *)
Definition receive (dest : str) (file : UploadFile) (d : disk)
  : disk * UploadFile * (raised + Z) :=
  let '(d1, file1, r) := stream_to_disk dest file d in
  let '(d2, result) :=
    match r with
    | inl (HTTPException status_code detail) =>
        (d1, inl (HTTPException status_code detail))       (* except HTTPException: raise *)
    | inl (Builtin exc) =>                                 (* except Exception as exc *)
        let d2 := fst (unlink dest d1) in
        (d2, inl (HTTPException HTTP_500_INTERNAL_SERVER_ERROR
                    ("Failed to save uploaded file: " +:+ exn_msg exc)))
    | inr total_written => (d1, inr total_written)
    end in
  (d2, close file1, result).                               (* finally: await file.close() *)

(** [os.path.basename(file.filename or "").strip()] (line 162) *)
Definition safe_filename_of (file : UploadFile) : str :=
  strip (basename (default [] (file_filename file))).

(** Lines 138-221.  The test of [file.content_type] at line 172 has an empty
    body and is left out. *)
Definition upload_video (request : Request) (file : UploadFile) (d : disk)
  : disk * UploadFile * (raised + UploadSuccessResponse) :=
  match ensure_upload_dir_exists d with
  | (d0, inl exc) => (d0, file, inl exc)
  | (d0, inr _) =>
      let safe_filename := safe_filename_of file in
      match safe_filename with
      | [] => (d0, file, inl (HTTPException HTTP_400_BAD_REQUEST "Filename is required."))
      | _ :: _ =>
          let '(d1, file1, r) := receive safe_filename file d0 in
          match r with
          | inl exc => (d1, file1, inl exc)
          | inr total_written =>
              (d1, file1,
               inr (mkUploadSuccessResponse safe_filename total_written "Upload successful"))
          end
      end
  end.

(** The dependency and the handler of [POST /upload] in the order in which
    the framework calls them for a request whose [file] parameter it could
    supply: first [_validate_content_length], and the handler only when
    that has not raised.  The answers the framework gives by itself before
    that point are not part of this definition. *)
Definition post_upload (request : Request) (file : UploadFile) (d : disk)
  : disk * UploadFile * (raised + UploadSuccessResponse) :=
  match _validate_content_length request with
  | inl exc => (d, file, inl exc)
  | inr _ => upload_video request file d
  end.

End Handler.


(** ** Notions the statements below use *)

(** Following the words of the specification: the components of a path are
    the pieces between its separators ([p.split("/")]), and its final path
    component is the last of them. *)
Fixpoint components (p : str) : list str :=
  match p with
  | [] => [[]]
  | c :: p' =>
      if (c =? sep)%N then [] :: components p'
      else match components p' with
           | comp :: rest => (c :: comp) :: rest
           | [] => [[c]]
           end
  end.

Definition final_component (p : str) : str := List.last (components p) [].

(** The sum of the lengths of the chunks. *)
Definition total_len (chunks : list bytes) : Z :=
  foldr (fun c acc => len c + acc) 0 chunks.

(** The environment refuses nothing. *)
Definition quiet (env : environment) : Prop :=
  mkdir_fault env = None /\ chmod_fault env = None /\ open_fault env = None
  /\ (forall k, write_fault env k = None) /\ unlink_fault env = None.

(** The only way [chmod] is refused, if it is, is a [PermissionError]. *)
Definition chmod_tolerated (env : environment) : Prop :=
  forall e, chmod_fault env = Some e -> is_PermissionError e = true.

(** The directory exists or can be created, and [chmod] is tolerated. *)
Definition can_prepare (env : environment) (d : disk) : Prop :=
  (d = None -> mkdir_fault env = None) /\ chmod_tolerated env.

(** [name] can be the name of a regular file of the upload directory: it is
    not empty, holds no NUL, is neither ["."] nor [".."], and no
    subdirectory has it. *)
Definition storable (name : str) (d : disk) : Prop :=
  name <> [] /\ has_nul name = false /\ is_dot_name name = false
  /\ entry name d <> Some Dir.

(** A chunk of [n] zero bytes. *)
Definition zeros (n : Z) : bytes := repeat Byte.x00 (Z.to_nat n).

(** The request with the single header [Content-Length: v]. *)
Definition with_content_length (v : string) : Request :=
  Build_Request [("content-length"%string, v)].

(** [ensure_upload_dir_exists] called once per environment of [envs], in
    order, each call on the disk the previous one left; the results of all
    the calls are collected. *)
Fixpoint prepare_each (envs : list environment) (d : disk)
  : disk * list (raised + unit) :=
  match envs with
  | [] => (d, [])
  | env :: envs' =>
      let '(d1, r) := ensure_upload_dir_exists env d in
      let '(d2, rs) := prepare_each envs' d1 in
      (d2, r :: rs)
  end.


(** ** Sample values used in the examples *)

(** A quiet environment. *)
Definition quiet_env : environment :=
  Environment 0x12 7 None None None (fun _ => None) None.

(** The upload directory lies on a read-only file system: [chmod] is refused
    with an [OSError] that is not a [PermissionError]. *)
Definition read_only_env : environment :=
  Environment 0x12 7 None (Some (Exn OSError "Read-only file system")) None
    (fun _ => None) None.

(** The file system does not support permission bits. *)
Definition unsupported_env : environment :=
  Environment 0x12 7 None (Some (Exn OSError "Operation not supported")) None
    (fun _ => None) None.

(** The process may not change the mode of the directory. *)
Definition denied_env : environment :=
  Environment 0x12 7 None (Some (Exn PermissionError "Operation not permitted")) None
    (fun _ => None) None.

(** An upload directory that holds one file, saved by an earlier request. *)
Definition used_dir : directory :=
  Directory 3 0x1ed {[ py "clip.mp4" := File [Byte.x01] ]}.

(** An open upload called [name] whose reads return [chunks]. *)
Definition upload_of (name : string) (chunks : list bytes) : UploadFile :=
  mkUploadFile (Some (py name)) (Some "video/mp4"%string) (map inr chunks) false.

Definition no_headers : Request := Build_Request [].

(** 500 chunks of 1 MiB: exactly the maximum. *)
Definition chunks_at_limit : list bytes := repeat (zeros chunk_size) 500.

(** One byte more. *)
Definition chunks_over_limit : list bytes :=
  chunks_at_limit ++ [[Byte.x00]].

(** ** Further notions and sample values *)

(** The chunks the loop gets from [reads] before the stream ends: up to the
    first read that returns [b""] or raises, or to the end of the list. *)
Fixpoint chunks_read (reads : list (exn + bytes)) : list bytes :=
  match reads with
  | inr (b :: chunk) :: rest => (b :: chunk) :: chunks_read rest
  | _ => []
  end.

(** The disk is full after the first write: the second write of a request is
    refused. *)
Definition full_disk_env : environment :=
  Environment 0x12 7 None None None
    (fun k => match k with
              | 1%nat => Some (Exn OSError "No space left on device")
              | _ => None
              end)
    None.

(** An open upload called [name] whose reads have the outcomes [reads]. *)
Definition upload_reading (name : string) (reads : list (exn + bytes)) : UploadFile :=
  mkUploadFile (Some (py name)) (Some "video/mp4"%string) reads false.

(** The client went away: raised by a read of a broken stream. *)
Definition connection_lost : exn := Exn OSError "Connection reset by peer".

(** * Properties *)

(** ** Strings *)

Lemma rfind_ge (c : N) (p : str) : -1 <= rfind c p.
Proof.
  induction p as [|x p IH]; simpl; [lia|].
  destruct (Z.leb_spec 0 (rfind c p)); [lia|].
  destruct (x =? c)%N; lia.
Qed.

Lemma components_nonempty (p : str) : components p <> [].
Proof.
  destruct p as [|c p]; simpl; [discriminate|].
  destruct (c =? sep)%N; [discriminate|].
  destruct (components p); discriminate.
Qed.

(** Without a separator the path is its only component. *)
Lemma components_no_sep (p : str) : rfind sep p = -1 -> components p = [p].
Proof.
  induction p as [|c p IH]; simpl; [reflexivity|].
  pose proof (rfind_ge sep p) as Hge.
  destruct (Z.leb_spec 0 (rfind sep p)) as [H0|H0]; [lia|].
  destruct (c =? sep)%N; [lia|].
  intros _. rewrite IH by lia. reflexivity.
Qed.

(** With a separator there are at least two components. *)
Lemma components_sep (p : str) :
  0 <= rfind sep p -> exists c1 c2 rest, components p = c1 :: c2 :: rest.
Proof.
  induction p as [|c p IH]; simpl; [lia|].
  pose proof (rfind_ge sep p) as Hge.
  destruct (Z.leb_spec 0 (rfind sep p)) as [H0|H0].
  - intros _. destruct (IH H0) as (c1 & c2 & rest & ->).
    destruct (c =? sep)%N; eauto.
  - destruct (c =? sep)%N eqn:Hc; [|lia].
    intros _. rewrite components_no_sep by lia. eauto.
Qed.

(** [os.path.basename] returns the final path component. *)
Lemma basename_final_component (p : str) : basename p = final_component p.
Proof.
  unfold basename, final_component.
  induction p as [|c p IH]; [reflexivity|].
  pose proof (rfind_ge sep p) as Hge.
  simpl rfind. simpl components. cbv zeta in *.
  destruct (Z.leb_spec 0 (rfind sep p)) as [H0|H0].
  - replace (Z.to_nat (rfind sep p + 1 + 1)) with (S (Z.to_nat (rfind sep p + 1))) by lia.
    simpl drop. rewrite IH.
    destruct (components_sep p H0) as (c1 & c2 & rest & ->).
    destruct (c =? sep)%N; reflexivity.
  - rewrite (components_no_sep p) by lia.
    destruct (c =? sep)%N; reflexivity.
Qed.

Lemma basename_suffix (p : str) : exists pre, p = pre ++ basename p.
Proof.
  unfold basename. exists (take (Z.to_nat (rfind sep p + 1)) p).
  symmetry. apply take_drop.
Qed.

Lemma rfind_none_not_in (c : N) (p : str) : rfind c p = -1 -> c ∉ p.
Proof.
  induction p as [|x p IH]; simpl; intros H.
  - apply not_elem_of_nil.
  - pose proof (rfind_ge c p).
    destruct (Z.leb_spec 0 (rfind c p)); [lia|].
    destruct (N.eqb_spec x c); [lia|].
    apply not_elem_of_cons. split; [congruence|]. apply IH. lia.
Qed.

(** The base name holds no separator. *)
Lemma basename_no_sep (p : str) : sep ∉ basename p.
Proof.
  unfold basename. induction p as [|c p IH]; simpl rfind.
  - simpl. apply not_elem_of_nil.
  - pose proof (rfind_ge sep p) as Hge. cbv zeta.
    destruct (Z.leb_spec 0 (rfind sep p)) as [H0|H0].
    + replace (Z.to_nat (rfind sep p + 1 + 1)) with (S (Z.to_nat (rfind sep p + 1))) by lia.
      exact IH.
    + assert (rfind sep p = -1) as Hr by lia.
      destruct (N.eqb_spec c sep) as [->|Hc]; simpl.
      * by apply rfind_none_not_in.
      * apply not_elem_of_cons. split; [congruence|]. by apply rfind_none_not_in.
Qed.

Lemma lstrip_suffix (s : str) :
  exists pre, s = pre ++ lstrip s /\ forallb py_isspace pre = true.
Proof.
  induction s as [|c s (pre & IH & Hpre)]; simpl.
  - by exists [].
  - destruct (py_isspace c) eqn:Hc.
    + exists (c :: pre). simpl. rewrite Hc, Hpre. split; [congruence | done].
    + by exists [].
Qed.

(** [strip] removes white space, and only white space, at both ends. *)
Lemma strip_spec (s : str) :
  exists lead trail, s = lead ++ strip s ++ trail
    /\ forallb py_isspace lead = true /\ forallb py_isspace trail = true.
Proof.
  unfold strip, rstrip.
  destruct (lstrip_suffix s) as (lead & Hs & Hlead).
  destruct (lstrip_suffix (rev (lstrip s))) as (t & Ht & Htrail).
  exists lead, (rev t). split; [|split]; [|done|].
  - rewrite <- rev_app_distr, <- Ht, rev_involutive. exact Hs.
  - rewrite forallb_forall in *. intros x Hx. apply Htrail. by apply in_rev.
Qed.

Lemma strip_no_sep (s : str) : sep ∉ s -> sep ∉ strip s.
Proof.
  destruct (strip_spec s) as (lead & trail & Hs & _).
  intros Hn Hin. apply Hn. rewrite Hs. set_solver.
Qed.

Lemma rfind_last (c : N) (pre : str) : rfind c (pre ++ [c]) = len pre.
Proof.
  unfold len. induction pre as [|x pre IH]; simpl.
  - by rewrite N.eqb_refl.
  - rewrite IH. destruct (Z.leb_spec 0 (Z.of_nat (length pre))); lia.
Qed.

(** A name that ends in a separator has an empty base name. *)
Lemma basename_ends_with_sep (pre : str) : basename (pre ++ [sep]) = [].
Proof.
  unfold basename. rewrite rfind_last. cbv zeta.
  apply drop_ge. unfold len. rewrite length_app. simpl. lia.
Qed.

Lemma lstrip_head (s : str) :
  lstrip s = [] \/ exists c s', lstrip s = c :: s' /\ py_isspace c = false.
Proof.
  induction s as [|c s IH]; simpl; [by left|].
  destruct (py_isspace c) eqn:Hc; [exact IH|]. right. by exists c, s.
Qed.

Lemma lstrip_fixed (s : str) :
  (s = [] \/ exists c s', s = c :: s' /\ py_isspace c = false) -> lstrip s = s.
Proof. intros [-> | (c & s' & -> & Hc)]; [reflexivity|]. simpl. by rewrite Hc. Qed.

Lemma lstrip_lstrip (s : str) : lstrip (lstrip s) = lstrip s.
Proof. apply lstrip_fixed, lstrip_head. Qed.

Lemma rstrip_prefix (s : str) : exists t, s = rstrip s ++ t.
Proof.
  unfold rstrip. destruct (lstrip_suffix (rev s)) as (pre & H & _).
  exists (rev pre). rewrite <- rev_app_distr, <- H. by rewrite rev_involutive.
Qed.

Lemma rstrip_rstrip (s : str) : rstrip (rstrip s) = rstrip s.
Proof. unfold rstrip. by rewrite rev_involutive, lstrip_lstrip. Qed.

(** What [strip] returns is empty or starts and ends with a character that
    is not white space; [strip] leaves it as it is. *)
Lemma strip_head (s : str) (c : N) (s' : str) :
  strip s = c :: s' -> py_isspace c = false.
Proof.
  unfold strip. intros H. destruct (rstrip_prefix (lstrip s)) as [t Ht].
  rewrite H in Ht. destruct (lstrip_head s) as [E | (c1 & s1 & E & Hc)];
    rewrite E in Ht; [discriminate|]. by injection Ht as -> _.
Qed.

Lemma strip_last (s : str) (c : N) (s' : str) :
  strip s = s' ++ [c] -> py_isspace c = false.
Proof.
  unfold strip, rstrip. intros H.
  destruct (lstrip_head (rev (lstrip s))) as [E | (c1 & s1 & E & Hc)]; rewrite E in H.
  - by destruct s'.
  - simpl in H. apply app_inj_tail in H as [_ ->]. exact Hc.
Qed.

Lemma strip_strip (s : str) : strip (strip s) = strip s.
Proof.
  unfold strip at 1. rewrite (lstrip_fixed (strip s)).
  - unfold strip. apply rstrip_rstrip.
  - destruct (strip s) as [|c s'] eqn:E; [by left|]. right. exists c, s'.
    split; [reflexivity|]. by apply (strip_head s c s').
Qed.

Lemma rfind_absent (c : N) (p : str) : c ∉ p -> rfind c p = -1.
Proof.
  induction p as [|x p IH]; [reflexivity|]. intros H.
  apply not_elem_of_cons in H as [Hx Hp]. simpl. rewrite (IH Hp). simpl.
  destruct (N.eqb_spec x c); [congruence | reflexivity].
Qed.

Lemma basename_no_sep_id (p : str) : sep ∉ p -> basename p = p.
Proof. intros H. unfold basename. by rewrite (rfind_absent sep p H). Qed.

Lemma lstrip_all_space (s : str) : forallb py_isspace s = true -> lstrip s = [].
Proof.
  induction s as [|c s IH]; simpl; [done|].
  intros [Hc Hs]%andb_prop. rewrite Hc. by apply IH.
Qed.

(** [strip] returns the empty string exactly on strings of white space. *)
Lemma strip_empty_iff (s : str) : strip s = [] <-> forallb py_isspace s = true.
Proof.
  split.
  - intros H. destruct (strip_spec s) as (lead & trail & Hs & Hl & Ht).
    rewrite H in Hs. rewrite Hs. simpl. rewrite forallb_app. by rewrite Hl, Ht.
  - intros H. unfold strip. by rewrite (lstrip_all_space s H).
Qed.

(** The builtins on the inputs they were compared with CPython on. *)

Example int_accepts :
  int "524288000" = inr 524288000 /\ int " 5 " = inr 5 /\ int "+5" = inr 5
  /\ int "-5" = inr (-5) /\ int "-0" = inr 0 /\ int "007" = inr 7
  /\ int "1_000_000" = inr 1000000
  /\ int (String (ascii_of_N 0xa0) "5") = inr 5.
Proof. repeat split. Qed.

Example int_refuses :
  int "" = inl invalid_literal /\ int "  " = inl invalid_literal
  /\ int "+" = inl invalid_literal /\ int "- 5" = inl invalid_literal
  /\ int "_1" = inl invalid_literal /\ int "1_" = inl invalid_literal
  /\ int "1__0" = inl invalid_literal /\ int "5 5" = inl invalid_literal
  /\ int "0x10" = inl invalid_literal /\ int "5.0" = inl invalid_literal
  /\ int "12abc" = inl invalid_literal
  /\ int (String (ascii_of_N 0x1c) "5") = inl invalid_literal.
Proof. repeat split. Qed.

Example int_digit_limit :
  int (string_of_list_ascii (repeat "1"%char 4301)) = inl too_many_digits
  /\ int (string_of_list_ascii ("+"%char :: repeat "0"%char 4300)) = inr 0.
Proof. split; vm_compute; reflexivity. Qed.

Example basename_examples :
  basename (py "../../etc/passwd") = py "passwd" /\ basename (py "a/b/") = []
  /\ basename (py "/") = [] /\ basename (py "") = [] /\ basename (py "a") = py "a"
  /\ basename (py "a/..") = py ".." /\ basename (py "x\y") = py "x\y".
Proof. repeat split. Qed.

Example strip_examples :
  strip (py " a ") = py "a" /\ strip (py "  ") = [] /\ strip (py "a b") = py "a b"
  /\ strip [0x3000; 97; 0x85]%N = py "a".
Proof. repeat split. Qed.

(** ** Directory preparation *)

Lemma mkdir_ok (env : environment) (d : disk) :
  (d = None -> mkdir_fault env = None) ->
  exists dir, mkdir env d = (Some dir, inr tt).
Proof.
  intros H. destruct d as [dir|]; simpl; [eauto|].
  rewrite H by reflexivity. eauto.
Qed.

(** What [ensure_upload_dir_exists] does once [mkdir] has gone through. *)
Lemma ensure_after_mkdir (env : environment) (d : disk) (dir : directory) :
  mkdir env d = (Some dir, inr tt) ->
  ensure_upload_dir_exists env d =
    match chmod_fault env with
    | None => (Some (Directory (d_ino dir) mode_0o700 (d_entries dir)), inr tt)
    | Some e =>
        if is_PermissionError e then (Some dir, inr tt)
        else (Some dir,
              inl (HTTPException HTTP_500_INTERNAL_SERVER_ERROR
                     ("Failed to prepare upload directory: " +:+ exn_msg e)))
    end.
Proof.
  intros Hm. unfold ensure_upload_dir_exists. rewrite Hm. unfold chmod.
  destruct (chmod_fault env) as [e|]; [|reflexivity].
  destruct (is_PermissionError e); reflexivity.
Qed.

Lemma ensure_mkdir_refused (env : environment) (e : exn) :
  mkdir_fault env = Some e ->
  ensure_upload_dir_exists env None =
    (None, inl (HTTPException HTTP_500_INTERNAL_SERVER_ERROR
                  ("Failed to prepare upload directory: " +:+ exn_msg e))).
Proof. intros H. unfold ensure_upload_dir_exists, mkdir. rewrite H. reflexivity. Qed.

(** Preparation succeeds exactly when the directory exists or can be
    created and [chmod] is tolerated. *)
Lemma ensure_ok_iff (env : environment) (d : disk) :
  snd (ensure_upload_dir_exists env d) = inr tt <-> can_prepare env d.
Proof.
  unfold can_prepare, chmod_tolerated. split.
  - intros H. destruct d as [dir|].
    + rewrite (ensure_after_mkdir env _ dir) in H by reflexivity.
      split; [discriminate|]. intros e He. rewrite He in H.
      destruct (is_PermissionError e); [reflexivity | discriminate].
    + destruct (mkdir_fault env) as [e|] eqn:Hm.
      { rewrite (ensure_mkdir_refused env e Hm) in H. discriminate. }
      split; [reflexivity|]. intros e He.
      destruct (mkdir_ok env None) as [dir Hdir]; [done|].
      rewrite (ensure_after_mkdir env _ dir Hdir), He in H.
      destruct (is_PermissionError e); [reflexivity | discriminate].
  - intros [Hm Hc]. destruct (mkdir_ok env d Hm) as [dir Hdir].
    rewrite (ensure_after_mkdir env _ dir Hdir).
    destruct (chmod_fault env) as [e|] eqn:He; [|reflexivity].
    rewrite (Hc e eq_refl). reflexivity.
Qed.

(** A successful preparation leaves a directory with the entries the disk
    had before, and with the same identity when it existed. *)
Lemma ensure_ok_disk (env : environment) (d : disk) :
  can_prepare env d ->
  exists dir', ensure_upload_dir_exists env d = (Some dir', inr tt)
    /\ (forall name, entry name (Some dir') = entry name d)
    /\ (forall dir, d = Some dir ->
          d_ino dir' = d_ino dir /\ d_entries dir' = d_entries dir).
Proof.
  intros [Hm Hc]. destruct (mkdir_ok env d Hm) as [dir Hdir].
  rewrite (ensure_after_mkdir env _ dir Hdir).
  assert ((forall name, entry name (Some dir) = entry name d)
          /\ (forall dir0, d = Some dir0 -> dir = dir0)) as [Hentry Hsame].
  { destruct d as [dir0|]; simpl in Hdir.
    - injection Hdir as ->. split; [done | congruence].
    - rewrite Hm in Hdir by reflexivity. injection Hdir as <-.
      split; [|discriminate]. intros name. simpl. apply lookup_empty. }
  destruct (chmod_fault env) as [e|] eqn:He.
  - rewrite (Hc e He). exists dir. split; [done|]. split; [done|].
    intros dir0 Hd. by rewrite (Hsame dir0 Hd).
  - eexists. split; [done|]. split; [exact Hentry|].
    intros dir0 Hd. by rewrite (Hsame dir0 Hd).
Qed.

(** Whatever happens, a failed preparation is reported with status 500. *)
Lemma ensure_result (env : environment) (d : disk) :
  snd (ensure_upload_dir_exists env d) = inr tt
  \/ exists detail,
       snd (ensure_upload_dir_exists env d)
       = inl (HTTPException HTTP_500_INTERNAL_SERVER_ERROR detail).
Proof.
  destruct (mkdir env d) as [d1 [e|[]]] eqn:Hm.
  - right. unfold ensure_upload_dir_exists. rewrite Hm. simpl. eauto.
  - destruct d1 as [dir|].
    + rewrite (ensure_after_mkdir env _ dir Hm).
      destruct (chmod_fault env) as [e|]; [|by left].
      destruct (is_PermissionError e); [by left | right; simpl; eauto].
    + unfold mkdir in Hm. destruct d; [discriminate|].
      destruct (mkdir_fault env); discriminate.
Qed.

Lemma prepare_each_existing (envs : list environment) (dir : directory) :
  Forall chmod_tolerated envs ->
  exists dir', prepare_each envs (Some dir) = (Some dir', repeat (inr tt) (length envs))
    /\ d_ino dir' = d_ino dir /\ d_entries dir' = d_entries dir.
Proof.
  intros H. revert dir. induction H as [|env envs Henv _ IH]; intros dir.
  - exists dir. done.
  - destruct (ensure_ok_disk env (Some dir)) as (dir1 & E1 & _ & Hsame).
    { split; [discriminate | exact Henv]. }
    destruct (Hsame dir eq_refl) as [Hino Hent].
    destruct (IH dir1) as (dir2 & E2 & Hino2 & Hent2).
    exists dir2. simpl. rewrite E1, E2. split; [done|]. split; congruence.
Qed.

(** ** The declared-size pre-check *)

(** [int] raises nothing but [ValueError]. *)
Lemma int_raises_ValueError (s : string) (e : exn) :
  int s = inl e -> is_ValueError e = true.
Proof.
  unfold int.
  match goal with
  | |- context [let '(_, _) := ?p in _] => destruct p as [sign s2]
  end.
  destruct (int_body s2) as [[v nd]|].
  - destruct (int_max_str_digits <? nd)%nat; [|discriminate].
    intros H. injection H as <-. reflexivity.
  - intros H. injection H as <-. reflexivity.
Qed.

Lemma validate_absent (request : Request) :
  headers_get "content-length" (headers request) = None ->
  _validate_content_length request = inr None.
Proof. intros H. unfold _validate_content_length. by rewrite H. Qed.

Lemma validate_unparseable (request : Request) (h : string) (e : exn) :
  headers_get "content-length" (headers request) = Some h ->
  int h = inl e ->
  _validate_content_length request
  = inl (HTTPException HTTP_400_BAD_REQUEST "Invalid Content-Length header.").
Proof.
  intros H E. unfold _validate_content_length. rewrite H, E.
  by rewrite (int_raises_ValueError h e E).
Qed.

Lemma validate_parsed (request : Request) (h : string) (n : Z) :
  headers_get "content-length" (headers request) = Some h ->
  int h = inr n ->
  _validate_content_length request
  = if MAX_VIDEO_SIZE_BYTES <? n
    then inl (HTTPException HTTP_413_REQUEST_ENTITY_TOO_LARGE too_large_detail)
    else inr (Some n).
Proof. intros H E. unfold _validate_content_length. by rewrite H, E. Qed.

(** A negative declared size passes the pre-check. *)
Lemma validate_negative (request : Request) (h : string) (n : Z) :
  headers_get "content-length" (headers request) = Some h ->
  int h = inr n -> n < 0 ->
  _validate_content_length request = inr (Some n).
Proof.
  intros H E Hn. rewrite (validate_parsed request h n H E).
  destruct (Z.ltb_spec MAX_VIDEO_SIZE_BYTES n) as [Hgt|]; [|reflexivity].
  unfold MAX_VIDEO_SIZE_BYTES in Hgt. lia.
Qed.

(** ** The streaming loop *)

Lemma len_nonneg {A : Type} (l : list A) : 0 <= len l.
Proof. unfold len. lia. Qed.

Lemma len_app {A : Type} (l1 l2 : list A) : len (l1 ++ l2) = len l1 + len l2.
Proof. unfold len. rewrite length_app. lia. Qed.

Lemma total_len_nonneg (chunks : list bytes) : 0 <= total_len chunks.
Proof.
  induction chunks as [|c chunks IH]; simpl; [lia|].
  pose proof (len_nonneg c). lia.
Qed.

(** The sum of the lengths is the length of the concatenation. *)
Lemma total_len_concat (chunks : list bytes) :
  total_len chunks = len (concat chunks).
Proof.
  induction chunks as [|c chunks IH]; simpl; [reflexivity|].
  rewrite len_app. lia.
Qed.

Lemma total_len_app (l1 l2 : list bytes) :
  total_len (l1 ++ l2) = total_len l1 + total_len l2.
Proof. induction l1 as [|c l1 IH]; simpl; lia. Qed.

Lemma total_len_repeat (c : bytes) (n : nat) :
  total_len (repeat c n) = Z.of_nat n * len c.
Proof. induction n as [|n IH]; simpl repeat; simpl total_len; lia. Qed.

Lemma len_zeros (n : Z) : 0 <= n -> len (zeros n) = n.
Proof. intros H. unfold len, zeros. rewrite repeat_length. lia. Qed.

Lemma zeros_nonempty (n : Z) : 0 < n -> zeros n <> [].
Proof.
  intros H E. assert (len (zeros n) = 0) as H0 by (rewrite E; reflexivity).
  rewrite len_zeros in H0; lia.
Qed.

Section Loop.

Context (env : environment) (dest : str).

(** A run in which no write is refused and the limit is kept: every chunk
    is appended, in order. *)
Lemma write_loop_within (chunks : list bytes) :
  (forall k, write_fault env k = None) ->
  Forall (fun c => c <> []) chunks ->
  forall (k : nat) (total : Z) (dir : directory) (content : bytes),
    d_entries dir !! dest = Some (File content) ->
    total + total_len chunks <= MAX_VIDEO_SIZE_BYTES ->
    write_loop env dest (map inr chunks) k total (Some dir)
    = (Some (Directory (d_ino dir) (d_mode dir)
               (<[dest := File (content ++ concat chunks)]> (d_entries dir))),
       [], inr (total + total_len chunks)).
Proof.
  intros Hw Hne. induction Hne as [|c chunks Hc _ IH]; intros k total dir content Hd Hle.
  - simpl. rewrite app_nil_r, Z.add_0_r, insert_id by done. by destruct dir.
  - simpl map. simpl write_loop. unfold loop_body.
    destruct c as [|b c]; [done|].
    simpl total_len in Hle. pose proof (total_len_nonneg chunks) as Hnn.
    destruct (Z.ltb_spec MAX_VIDEO_SIZE_BYTES (total + len (b :: c))) as [Hgt|_]; [lia|].
    unfold write. rewrite Hw, Hd.
    rewrite (IH _ _ _ (content ++ b :: c)); simpl d_entries; simpl d_ino; simpl d_mode.
    + rewrite insert_insert_eq. simpl concat. simpl total_len.
      rewrite <- app_assoc, Z.add_assoc. reflexivity.
    + apply lookup_insert_eq.
    + lia.
Qed.

(** A run in which nothing is refused and the chunks add up to more than
    the limit: the chunk that crosses the limit is not written, the
    destination is removed and the 413 error is raised. *)
Lemma write_loop_exceeds (chunks : list bytes) :
  (forall k, write_fault env k = None) ->
  unlink_fault env = None ->
  is_dot_name dest = false ->
  Forall (fun c => c <> []) chunks ->
  forall (k : nat) (total : Z) (dir : directory) (content : bytes),
    d_entries dir !! dest = Some (File content) ->
    total <= MAX_VIDEO_SIZE_BYTES ->
    MAX_VIDEO_SIZE_BYTES < total + total_len chunks ->
    exists rest,
      write_loop env dest (map inr chunks) k total (Some dir)
      = (Some (Directory (d_ino dir) (d_mode dir) (delete dest (d_entries dir))),
         rest,
         inl (HTTPException HTTP_413_REQUEST_ENTITY_TOO_LARGE too_large_detail)).
Proof.
  intros Hw Hu Hdot Hne.
  induction Hne as [|c chunks Hc _ IH]; intros k total dir content Hd Hle Hgt.
  - simpl in Hgt. lia.
  - simpl map. simpl write_loop. unfold loop_body.
    destruct c as [|b c]; [done|].
    simpl total_len in Hgt.
    destruct (Z.ltb_spec MAX_VIDEO_SIZE_BYTES (total + len (b :: c))) as [Hover|Hin].
    + exists (map inr chunks). unfold unlink. rewrite Hdot, Hd, Hu. reflexivity.
    + unfold write. rewrite Hw, Hd.
      destruct (IH (S k) (total + len (b :: c))
                  (Directory (d_ino dir) (d_mode dir)
                     (<[dest := File (content ++ b :: c)]> (d_entries dir)))
                  (content ++ b :: c)) as [rest E].
      * apply lookup_insert_eq.
      * lia.
      * lia.
      * exists rest. rewrite E. simpl d_entries. by rewrite delete_insert_eq.
Qed.

(** *** The bound on what is on disk *)

Lemma bytes_on_disk_nonneg (d : disk) : 0 <= bytes_on_disk dest d.
Proof.
  unfold bytes_on_disk. destruct (entry dest d) as [[c|]|]; try lia. apply len_nonneg.
Qed.

Lemma unlink_bytes (d : disk) :
  bytes_on_disk dest (fst (unlink env dest d)) <= bytes_on_disk dest d.
Proof.
  unfold unlink. destruct d as [dir|]; [|simpl; lia].
  destruct (is_dot_name dest); [simpl; lia|].
  destruct (d_entries dir !! dest) as [[c|]|] eqn:E; try (simpl; lia).
  destruct (unlink_fault env); [simpl; lia|].
  unfold bytes_on_disk at 1. simpl. rewrite lookup_delete_eq.
  apply bytes_on_disk_nonneg.
Qed.

Lemma write_bytes (k : nat) (chunk : bytes) (d : disk) :
  bytes_on_disk dest (fst (write env dest k chunk d)) <= bytes_on_disk dest d + len chunk.
Proof.
  pose proof (len_nonneg chunk). unfold write.
  destruct (write_fault env k); [simpl; lia|].
  destruct d as [dir|]; [|simpl; lia].
  destruct (d_entries dir !! dest) as [[c|]|] eqn:E; try (simpl; lia).
  unfold bytes_on_disk. simpl. rewrite lookup_insert_eq, E, len_app. lia.
Qed.

(** One pass keeps the file within the running total, and the running total
    within the limit. *)
Lemma loop_body_bound (k : nat) (total : Z) (d : disk)
  (r : exn + bytes) :
  bytes_on_disk dest d <= total -> total <= MAX_VIDEO_SIZE_BYTES ->
  bytes_on_disk dest (fst (loop_body env dest k total d r)) <= MAX_VIDEO_SIZE_BYTES
  /\ forall t, snd (loop_body env dest k total d r) = inr (Some t) ->
       bytes_on_disk dest (fst (loop_body env dest k total d r)) <= t
       /\ t <= MAX_VIDEO_SIZE_BYTES.
Proof.
  intros Hb Ht. unfold loop_body.
  destruct r as [e|[|b c]]; simpl; try (split; [lia | discriminate]).
  destruct (Z.ltb_spec MAX_VIDEO_SIZE_BYTES (total + len (b :: c))) as [Hover|Hin]; simpl.
  - pose proof (unlink_bytes d). split; [lia | discriminate].
  - pose proof (write_bytes k (b :: c) d) as Hw.
    destruct (write env dest k (b :: c) d) as [d1 [e|u]]; simpl in *.
    + split; [lia | discriminate].
    + split; [lia|]. intros t [= <-]. lia.
Qed.

Lemma loop_bound (reads : list (exn + bytes)) :
  forall (k : nat) (total : Z) (d : disk),
    bytes_on_disk dest d <= total -> total <= MAX_VIDEO_SIZE_BYTES ->
    Forall (fun x => bytes_on_disk dest x <= MAX_VIDEO_SIZE_BYTES)
      (loop_disks env dest reads k total d)
    /\ bytes_on_disk dest (write_loop env dest reads k total d).1.1
       <= MAX_VIDEO_SIZE_BYTES.
Proof.
  induction reads as [|r reads IH]; intros k total d Hb Ht.
  - simpl. split; [constructor | lia].
  - simpl. destruct (loop_body_bound k total d r Hb Ht) as [H1 H2].
    destruct (loop_body env dest k total d r) as [d1 [e|[t|]]]; simpl in *.
    + split; [repeat constructor|]; done.
    + destruct (H2 t eq_refl) as [Hb' Ht'].
      destruct (IH (S k) t d1 Hb' Ht') as [IH1 IH2].
      split; [constructor|]; done.
    + split; [repeat constructor|]; done.
Qed.

End Loop.

(** ** The handler in a quiet environment *)

Lemma quiet_can_prepare (env : environment) (d : disk) :
  quiet env -> can_prepare env d.
Proof.
  intros (Hm & Hc & _). split; [done|]. intros e He. congruence.
Qed.

Lemma open_wb_storable (env : environment) (name : str) (dir : directory) :
  open_fault env = None -> storable name (Some dir) ->
  open_wb env name (Some dir)
  = (Some (Directory (d_ino dir) (d_mode dir) (<[name := File []]> (d_entries dir))),
     inr tt).
Proof.
  intros Ho (_ & Hnul & Hdot & Hdir). unfold open_wb, open_error.
  rewrite Hnul, Hdot. simpl in Hdir.
  destruct (d_entries dir !! name) as [[c|]|]; [| done |]; by rewrite Ho.
Qed.

Lemma receive_within (env : environment) (dest : str) (file : UploadFile)
  (dir : directory) (chunks : list bytes) :
  quiet env -> pending file = map inr chunks -> Forall (fun c => c <> []) chunks ->
  storable dest (Some dir) ->
  total_len chunks <= MAX_VIDEO_SIZE_BYTES ->
  receive env dest file (Some dir)
  = (Some (Directory (d_ino dir) (d_mode dir)
             (<[dest := File (concat chunks)]> (d_entries dir))),
     mkUploadFile (file_filename file) (file_content_type file) [] true,
     inr (total_len chunks)).
Proof.
  intros (_ & _ & Ho & Hw & _) Hp Hne Hst Hle.
  unfold receive, stream_to_disk. rewrite (open_wb_storable env dest dir Ho Hst), Hp.
  rewrite (write_loop_within env dest chunks Hw Hne 0%nat 0 _ []).
  - simpl. by rewrite insert_insert_eq.
  - apply lookup_insert_eq.
  - lia.
Qed.

Lemma receive_exceeds (env : environment) (dest : str) (file : UploadFile)
  (dir : directory) (chunks : list bytes) :
  quiet env -> pending file = map inr chunks -> Forall (fun c => c <> []) chunks ->
  storable dest (Some dir) ->
  MAX_VIDEO_SIZE_BYTES < total_len chunks ->
  exists rest,
    receive env dest file (Some dir)
    = (Some (Directory (d_ino dir) (d_mode dir) (delete dest (d_entries dir))),
       mkUploadFile (file_filename file) (file_content_type file) rest true,
       inl (HTTPException HTTP_413_REQUEST_ENTITY_TOO_LARGE too_large_detail)).
Proof.
  intros (_ & _ & Ho & Hw & Hu) Hp Hne Hst Hgt.
  unfold receive, stream_to_disk. rewrite (open_wb_storable env dest dir Ho Hst), Hp.
  destruct Hst as (_ & _ & Hdot & _).
  destruct (write_loop_exceeds env dest chunks Hw Hu Hdot Hne 0%nat 0
              (Directory (d_ino dir) (d_mode dir) (<[dest := File []]> (d_entries dir))) [])
    as [rest E].
  - apply lookup_insert_eq.
  - done.
  - lia.
  - exists rest. rewrite E. simpl. by rewrite delete_insert_eq.
Qed.

(** In a quiet environment, with a storable name, the handler gets as far as
    the [try] statement, on a directory that has the entries the disk had. *)
Lemma upload_video_reaches_receive (env : environment) (request : Request)
  (file : UploadFile) (d : disk) :
  can_prepare env d -> safe_filename_of file <> [] ->
  exists dir,
    ensure_upload_dir_exists env d = (Some dir, inr tt)
    /\ (forall name, entry name (Some dir) = entry name d)
    /\ upload_video env request file d
       = (let '(d1, file1, r) := receive env (safe_filename_of file) file (Some dir) in
          match r with
          | inl exc => (d1, file1, inl exc)
          | inr total_written =>
              (d1, file1,
               inr (mkUploadSuccessResponse (safe_filename_of file) total_written
                      "Upload successful"))
          end).
Proof.
  intros Hp Hne. destruct (ensure_ok_disk env d Hp) as (dir & E & Hentry & _).
  exists dir. split; [done|]. split; [done|].
  unfold upload_video. rewrite E.
  destruct (safe_filename_of file); done.
Qed.

Lemma storable_prepared (name : str) (d : disk) (dir : directory) :
  (forall n, entry n (Some dir) = entry n d) -> storable name d -> storable name (Some dir).
Proof.
  intros H (H1 & H2 & H3 & H4). repeat split; try done. by rewrite H.
Qed.

Lemma upload_video_within (env : environment) (request : Request) (file : UploadFile)
  (d : disk) (chunks : list bytes) :
  quiet env -> pending file = map inr chunks -> Forall (fun c => c <> []) chunks ->
  storable (safe_filename_of file) d ->
  total_len chunks <= MAX_VIDEO_SIZE_BYTES ->
  exists d' file',
    upload_video env request file d
    = (d', file',
       inr (mkUploadSuccessResponse (safe_filename_of file) (total_len chunks)
              "Upload successful"))
    /\ entry (safe_filename_of file) d' = Some (File (concat chunks))
    /\ closed file' = true.
Proof.
  intros Hq Hp Hne Hst Hle.
  destruct (upload_video_reaches_receive env request file d) as (dir & _ & Hentry & E).
  { by apply quiet_can_prepare. }
  { apply Hst. }
  rewrite E, (receive_within env _ file dir chunks Hq Hp Hne) by
    eauto using storable_prepared.
  eexists _, _. split; [reflexivity|]. split; [|reflexivity].
  simpl. apply lookup_insert_eq.
Qed.

Lemma upload_video_exceeds (env : environment) (request : Request) (file : UploadFile)
  (d : disk) (chunks : list bytes) :
  quiet env -> pending file = map inr chunks -> Forall (fun c => c <> []) chunks ->
  storable (safe_filename_of file) d ->
  MAX_VIDEO_SIZE_BYTES < total_len chunks ->
  exists d' file',
    upload_video env request file d
    = (d', file',
       inl (HTTPException HTTP_413_REQUEST_ENTITY_TOO_LARGE too_large_detail))
    /\ entry (safe_filename_of file) d' = None
    /\ closed file' = true.
Proof.
  intros Hq Hp Hne Hst Hgt.
  destruct (upload_video_reaches_receive env request file d) as (dir & _ & Hentry & E).
  { by apply quiet_can_prepare. }
  { apply Hst. }
  destruct (receive_exceeds env (safe_filename_of file) file dir chunks Hq Hp Hne)
    as [rest R]; [eauto using storable_prepared | done |].
  rewrite E, R.
  eexists _, _. split; [reflexivity|]. split; [|reflexivity].
  simpl. apply lookup_delete_eq.
Qed.

(** * The claims *)

(** ** C5: the declared-size pre-check *)

(** C5.  The claim asks that every header value that is not a non-negative
    integer be refused with status 400.  A negative value is not refused:
    [int] reads the sign, the comparison with the maximum is false, and the
    negative size is returned. *)
Theorem negative_content_length_accepted :
  int "-1" = inr (-1)
  /\ _validate_content_length (with_content_length "-1") = inr (Some (-1)).
Proof. split; reflexivity. Qed.

(** ** C6, C7: directory preparation *)

(** C6, as stated, fails: the directory exists, nothing has to be created,
    and the preparation still ends in the 500 error, because [chmod] is
    refused with an error that is not a [PermissionError]. *)
Lemma prepare_existing_fails_on_read_only :
  mkdir read_only_env (Some used_dir) = (Some used_dir, inr tt)
  /\ ensure_upload_dir_exists read_only_env (Some used_dir)
     = (Some used_dir,
        inl (HTTPException 500 "Failed to prepare upload directory: Read-only file system")).
Proof. split; reflexivity. Qed.

(** C6, amended.  When the directory exists and every [chmod] attempt either
    goes through or is refused with a [PermissionError], any number of
    preparations raise nothing and leave the identity and the entries of the
    directory as they were.  A preparation succeeds exactly when the
    directory exists or can be created and [chmod] is tolerated; when it
    fails, the status is 500. *)
Theorem prepare_idempotent (envs : list environment) (dir : directory)
  (env : environment) (d : disk) :
  Forall chmod_tolerated envs ->
  (exists dir',
     prepare_each envs (Some dir) = (Some dir', repeat (inr tt) (length envs))
     /\ d_ino dir' = d_ino dir /\ d_entries dir' = d_entries dir)
  /\ (snd (ensure_upload_dir_exists env d) = inr tt <-> can_prepare env d)
  /\ (snd (ensure_upload_dir_exists env d) = inr tt
      \/ exists detail,
           snd (ensure_upload_dir_exists env d)
           = inl (HTTPException HTTP_500_INTERNAL_SERVER_ERROR detail)).
Proof.
  intros H. split; [by apply prepare_each_existing|].
  split; [apply ensure_ok_iff | apply ensure_result].
Qed.

Lemma denied_env_tolerated : chmod_tolerated denied_env.
Proof. intros e [= <-]. reflexivity. Qed.

Lemma quiet_env_tolerated : chmod_tolerated quiet_env.
Proof. intros e [=]. Qed.

Lemma prepare_idempotent_witness :
  exists dir',
    prepare_each [quiet_env; denied_env; quiet_env] (Some used_dir)
    = (Some dir', [inr tt; inr tt; inr tt])
    /\ d_ino dir' = 3%N /\ d_entries dir' = d_entries used_dir.
Proof.
  apply (prepare_idempotent [quiet_env; denied_env; quiet_env] used_dir quiet_env None).
  repeat constructor; auto using denied_env_tolerated, quiet_env_tolerated.
Defined.

(** C7, as stated, fails: a [chmod] refused with an [OSError] that is not a
    [PermissionError] makes the preparation, and with it the request, end in
    the 500 error. *)
Lemma chmod_unsupported_fails_request :
  ensure_upload_dir_exists unsupported_env None
  = (Some (Directory 7 0x1ed ∅),
     inl (HTTPException 500 "Failed to prepare upload directory: Operation not supported"))
  /\ snd (upload_video unsupported_env no_headers
            (upload_of "clip.mp4" [[Byte.x01]]) None)
     = inl (HTTPException 500 "Failed to prepare upload directory: Operation not supported").
Proof. split; reflexivity. Qed.

(** C7, amended.  When [chmod] is refused and the directory exists or has
    been created, a [PermissionError] is ignored: the preparation raises
    nothing and leaves the disk as [mkdir] left it.  Any other exception
    ends the preparation, and the request, with the 500 error. *)
Theorem chmod_refusal_handling (env : environment) (request : Request)
  (file : UploadFile) (d : disk) (e : exn) :
  chmod_fault env = Some e ->
  (d = None -> mkdir_fault env = None) ->
  if is_PermissionError e
  then ensure_upload_dir_exists env d = (fst (mkdir env d), inr tt)
  else ensure_upload_dir_exists env d
       = (fst (mkdir env d),
          inl (HTTPException HTTP_500_INTERNAL_SERVER_ERROR
                 ("Failed to prepare upload directory: " +:+ exn_msg e)))
       /\ upload_video env request file d
          = (fst (mkdir env d), file,
             inl (HTTPException HTTP_500_INTERNAL_SERVER_ERROR
                    ("Failed to prepare upload directory: " +:+ exn_msg e))).
Proof.
  intros He Hm. destruct (mkdir_ok env d Hm) as [dir Hdir].
  pose proof (ensure_after_mkdir env d dir Hdir) as E. rewrite He in E.
  rewrite Hdir. simpl fst. destruct (is_PermissionError e); [exact E|].
  split; [exact E|]. unfold upload_video. by rewrite E.
Qed.

Lemma chmod_refusal_handling_witness :
  ensure_upload_dir_exists denied_env None = (Some (Directory 7 0x1ed ∅), inr tt).
Proof.
  exact (chmod_refusal_handling denied_env no_headers (upload_of "clip.mp4" [])
           None (Exn PermissionError "Operation not permitted") eq_refl (fun _ => eq_refl)).
Defined.

(** ** C8: the stream is closed *)

(** The loop ends by [break], by a builtin exception of a read or a write,
    or by the 413 error. *)
Lemma write_loop_result (env : environment) (dest : str)
  (reads : list (exn + bytes)) :
  forall (k : nat) (total : Z) (d : disk),
    match (write_loop env dest reads k total d).2 with
    | inr _ => True
    | inl (Builtin _) => True
    | inl (HTTPException status_code detail) =>
        status_code = HTTP_413_REQUEST_ENTITY_TOO_LARGE /\ detail = too_large_detail
    end.
Proof.
  induction reads as [|r reads IH]; intros k total d; simpl; [done|].
  unfold loop_body. destruct r as [e|[|b c]]; simpl; try done.
  destruct (MAX_VIDEO_SIZE_BYTES <? total + len (b :: c)); simpl; [done|].
  destruct (write env dest k (b :: c) d) as [d1 [e|u]]; simpl; [done|].
  apply IH.
Qed.

Lemma stream_to_disk_result (env : environment) (dest : str) (file : UploadFile)
  (d : disk) :
  match (stream_to_disk env dest file d).2 with
  | inr _ => True
  | inl (Builtin _) => True
  | inl (HTTPException status_code detail) =>
      status_code = HTTP_413_REQUEST_ENTITY_TOO_LARGE /\ detail = too_large_detail
  end.
Proof.
  unfold stream_to_disk. destruct (open_wb env dest d) as [d1 [e|u]]; simpl; [done|].
  pose proof (write_loop_result env dest (pending file) 0%nat 0 d1) as H.
  by destruct (write_loop env dest (pending file) 0 0 d1) as [[d2 rest] r].
Qed.

(** C8.  Whatever the environment refuses, whatever the reads return and
    whatever the destination is, the [try] statement leaves the upload
    closed; and it ends in one of three ways: with the number of bytes
    written, with the 413 error, or with the 500 error that carries the
    cause. *)
Theorem stream_closed_on_every_exit (env : environment) (dest : str)
  (file : UploadFile) (d : disk) :
  closed (receive env dest file d).1.2 = true
  /\ ((exists total_written, (receive env dest file d).2 = inr total_written)
      \/ (receive env dest file d).2
         = inl (HTTPException HTTP_413_REQUEST_ENTITY_TOO_LARGE too_large_detail)
      \/ (exists exc,
            (receive env dest file d).2
            = inl (HTTPException HTTP_500_INTERNAL_SERVER_ERROR
                     ("Failed to save uploaded file: " +:+ exn_msg exc)))).
Proof.
  unfold receive. pose proof (stream_to_disk_result env dest file d) as H.
  destruct (stream_to_disk env dest file d) as [[d1 file1] [[e|code detail]|total]];
    simpl in *.
  - split; [reflexivity|]. right. right. by exists e.
  - destruct H as [-> ->]. split; [reflexivity|]. right. by left.
  - split; [reflexivity|]. left. by exists total.
Qed.

(** The handler closes the upload unless it ends before the [try]
    statement: when the preparation fails or the file name is empty. *)
Lemma upload_video_closed (env : environment) (request : Request) (file : UploadFile)
  (d : disk) :
  can_prepare env d -> safe_filename_of file <> [] ->
  closed (upload_video env request file d).1.2 = true.
Proof.
  intros Hp Hne.
  destruct (upload_video_reaches_receive env request file d Hp Hne) as (dir & _ & _ & E).
  rewrite E.
  unfold receive.
  destruct (stream_to_disk env (safe_filename_of file) file (Some dir))
    as [[d1 file1] [[e|code detail]|total]]; reflexivity.
Qed.

(** ** C9: the bytes on disk stay within the limit *)

Lemma open_wb_bytes (env : environment) (dest : str) (d d1 : disk) :
  open_wb env dest d = (d1, inr tt) -> bytes_on_disk dest d1 = 0.
Proof.
  unfold open_wb. destruct (open_error env dest d); [discriminate|].
  destruct d as [dir|]; intros [= <-]; [|reflexivity].
  unfold bytes_on_disk. simpl. by rewrite lookup_insert_eq.
Qed.

(** C9.  From the moment the destination is open, the file never holds more
    than the maximum: not after any pass through the loop body, and not
    when the [try] statement is left.  A chunk that takes the running total
    over the maximum is not written: that pass only tries the unlink and
    raises the 413 error. *)
Theorem written_bytes_bounded (env : environment) (dest : str) (file : UploadFile)
  (d d1 : disk) :
  open_wb env dest d = (d1, inr tt) ->
  Forall (fun x => bytes_on_disk dest x <= MAX_VIDEO_SIZE_BYTES)
    (d1 :: loop_disks env dest (pending file) 0 0 d1)
  /\ bytes_on_disk dest (receive env dest file d).1.1 <= MAX_VIDEO_SIZE_BYTES
  /\ forall (k : nat) (total : Z) (d2 : disk) (b : Byte.byte)
       (chunk : bytes),
       MAX_VIDEO_SIZE_BYTES < total + len (b :: chunk) ->
       loop_body env dest k total d2 (inr (b :: chunk))
       = (fst (unlink env dest d2),
          inl (HTTPException HTTP_413_REQUEST_ENTITY_TOO_LARGE too_large_detail)).
Proof.
  intros Ho. pose proof (open_wb_bytes env dest d d1 Ho) as H0.
  assert (0 <= MAX_VIDEO_SIZE_BYTES) as Hmax by (by vm_compute).
  destruct (loop_bound env dest (pending file) 0%nat 0 d1) as [H1 H2]; [lia | lia |].
  split; [constructor; [lia | exact H1]|]. split.
  - unfold receive, stream_to_disk. rewrite Ho.
    destruct (write_loop env dest (pending file) 0 0 d1) as [[d2 rest] [[e|code detail]|total]];
      simpl in *; try done.
    pose proof (unlink_bytes env dest d2). lia.
  - intros k total d2 b chunk Hover. unfold loop_body.
    destruct (Z.ltb_spec MAX_VIDEO_SIZE_BYTES (total + len (b :: chunk))); [reflexivity | lia].
Qed.

Lemma written_bytes_bounded_witness :
  Forall (fun x => bytes_on_disk (py "clip.mp4") x <= MAX_VIDEO_SIZE_BYTES)
    (Some (Directory 3 0x1ed {[ py "clip.mp4" := File [] ]})
     :: loop_disks quiet_env (py "clip.mp4")
          (pending (upload_of "clip.mp4" [[Byte.x01; Byte.x02]; [Byte.x03]])) 0 0
          (Some (Directory 3 0x1ed {[ py "clip.mp4" := File [] ]}))).
Proof.
  apply (written_bytes_bounded quiet_env (py "clip.mp4")
           (upload_of "clip.mp4" [[Byte.x01; Byte.x02]; [Byte.x03]])
           (Some used_dir)).
  vm_compute. reflexivity.
Defined.

(** ** Facts about the sample values *)

Lemma quiet_env_quiet : quiet quiet_env.
Proof. repeat split. Qed.

Lemma safe_filename_of_upload_of (name : string) (chunks : list bytes) :
  safe_filename_of (upload_of name chunks) = strip (basename (py name)).
Proof. reflexivity. Qed.

Lemma chunks_at_limit_total : total_len chunks_at_limit = MAX_VIDEO_SIZE_BYTES.
Proof.
  unfold chunks_at_limit. rewrite total_len_repeat, len_zeros by (unfold chunk_size; lia).
  reflexivity.
Qed.

Lemma chunks_over_limit_total : total_len chunks_over_limit = MAX_VIDEO_SIZE_BYTES + 1.
Proof.
  unfold chunks_over_limit. rewrite total_len_app, chunks_at_limit_total. reflexivity.
Qed.

Lemma chunks_at_limit_nonempty : Forall (fun c => c <> []) chunks_at_limit.
Proof.
  apply List.Forall_forall. intros c Hc. apply repeat_spec in Hc. subst c.
  apply zeros_nonempty. unfold chunk_size. lia.
Qed.

Lemma chunks_over_limit_nonempty : Forall (fun c => c <> []) chunks_over_limit.
Proof.
  apply Forall_app. split; [apply chunks_at_limit_nonempty|].
  repeat constructor. discriminate.
Qed.

Lemma clip_storable (chunks : list bytes) (d : disk) :
  entry (py "clip.mp4") d <> Some Dir ->
  storable (safe_filename_of (upload_of "clip.mp4" chunks)) d.
Proof.
  intros H. rewrite safe_filename_of_upload_of.
  change (strip (basename (py "clip.mp4"))) with (py "clip.mp4").
  repeat split; [discriminate | exact H].
Qed.

(** ** C1: uploads within the limit *)

(** C1.  In a quiet environment, for a storable file name and a stream whose
    reads return the non-empty chunks [chunks] with a total length of at
    most the maximum, the handler succeeds, the destination holds the
    concatenation of the chunks in order, and [size_bytes] is the total
    length. *)
Theorem upload_within_limit (env : environment) (request : Request)
  (file : UploadFile) (d : disk) (chunks : list bytes) :
  quiet env ->
  pending file = map inr chunks ->
  Forall (fun c => c <> []) chunks ->
  storable (safe_filename_of file) d ->
  total_len chunks <= MAX_VIDEO_SIZE_BYTES ->
  exists d' file',
    upload_video env request file d
    = (d', file',
       inr (mkUploadSuccessResponse (safe_filename_of file) (total_len chunks)
              "Upload successful"))
    /\ entry (safe_filename_of file) d' = Some (File (concat chunks))
    /\ total_len chunks = len (concat chunks).
Proof.
  intros Hq Hp Hne Hst Hle.
  destruct (upload_video_within env request file d chunks Hq Hp Hne Hst Hle)
    as (d' & file' & E & Hentry & _).
  exists d', file'. split; [exact E|]. split; [exact Hentry|].
  apply total_len_concat.
Qed.

Lemma upload_within_limit_witness :
  exists d' file',
    upload_video quiet_env no_headers
      (upload_of "../../etc/passwd" [[Byte.x01; Byte.x02]; [Byte.x03]]) None
    = (d', file', inr (mkUploadSuccessResponse (py "passwd") 3 "Upload successful"))
    /\ entry (py "passwd") d' = Some (File [Byte.x01; Byte.x02; Byte.x03]).
Proof.
  destruct (upload_within_limit quiet_env no_headers
              (upload_of "../../etc/passwd" [[Byte.x01; Byte.x02]; [Byte.x03]]) None
              [[Byte.x01; Byte.x02]; [Byte.x03]]) as (d' & file' & E & Hentry & _).
  - apply quiet_env_quiet.
  - reflexivity.
  - repeat constructor; discriminate.
  - vm_compute. repeat split; discriminate.
  - vm_compute. discriminate.
  - exists d', file'. split; [exact E | exact Hentry].
Defined.

(** ** C2: uploads over the limit *)

Lemma post_upload_declared (env : environment) (request : Request) (file : UploadFile)
  (d : disk) (h : string) (n : Z) :
  headers_get "content-length" (headers request) = Some h ->
  int h = inr n -> MAX_VIDEO_SIZE_BYTES < n ->
  post_upload env request file d
  = (d, file, inl (HTTPException HTTP_413_REQUEST_ENTITY_TOO_LARGE too_large_detail)).
Proof.
  intros Hh Hi Hn. unfold post_upload. rewrite (validate_parsed request h n Hh Hi).
  destruct (Z.ltb_spec MAX_VIDEO_SIZE_BYTES n); [reflexivity | lia].
Qed.

(** C2, as stated, fails when the excess is declared by the header: the
    request is refused before the handler runs, so a file of the target
    name that an earlier request saved is still on disk afterwards. *)
Lemma declared_oversize_leaves_earlier_file :
  MAX_VIDEO_SIZE_BYTES < total_len chunks_over_limit
  /\ post_upload quiet_env (with_content_length "524288001")
       (upload_of "clip.mp4" chunks_over_limit) (Some used_dir)
     = (Some used_dir, upload_of "clip.mp4" chunks_over_limit,
        inl (HTTPException 413
               "File too large. Maximum allowed size is 524288000 bytes (500MB)."))
  /\ entry (safe_filename_of (upload_of "clip.mp4" chunks_over_limit)) (Some used_dir)
     = Some (File [Byte.x01]).
Proof.
  split; [rewrite chunks_over_limit_total; lia|]. split.
  - by apply (post_upload_declared _ _ _ _ "524288001" 524288001).
  - rewrite safe_filename_of_upload_of. reflexivity.
Qed.

(** C2, amended.  In a quiet environment, for a storable file name, a
    stream of non-empty chunks with a total length over the maximum, and a
    [Content-Length] header that is absent or an integer, the request ends
    in the 413 error.  When the pre-check lets the request through, the
    excess is found while streaming and no file of the target name is on
    disk afterwards; when the pre-check refuses it, disk and upload are
    exactly as they were. *)
Theorem oversize_rejected (env : environment) (request : Request)
  (file : UploadFile) (d : disk) (chunks : list bytes) :
  quiet env ->
  pending file = map inr chunks ->
  Forall (fun c => c <> []) chunks ->
  storable (safe_filename_of file) d ->
  MAX_VIDEO_SIZE_BYTES < total_len chunks ->
  (forall h, headers_get "content-length" (headers request) = Some h ->
             exists n, int h = inr n) ->
  exists d' file',
    post_upload env request file d
    = (d', file', inl (HTTPException HTTP_413_REQUEST_ENTITY_TOO_LARGE too_large_detail))
    /\ match _validate_content_length request with
       | inr _ => entry (safe_filename_of file) d' = None
       | inl _ => d' = d /\ file' = file
       end.
Proof.
  intros Hq Hp Hne Hst Hgt Hh. unfold post_upload.
  destruct (headers_get "content-length" (headers request)) as [h|] eqn:Eh.
  - destruct (Hh h eq_refl) as [n Hn].
    rewrite (validate_parsed request h n Eh Hn).
    destruct (MAX_VIDEO_SIZE_BYTES <? n); [by eexists _, _|].
    destruct (upload_video_exceeds env request file d chunks Hq Hp Hne Hst Hgt)
      as (d' & file' & E & Hentry & _).
    by exists d', file'.
  - rewrite (validate_absent request Eh).
    destruct (upload_video_exceeds env request file d chunks Hq Hp Hne Hst Hgt)
      as (d' & file' & E & Hentry & _).
    by exists d', file'.
Qed.

Lemma oversize_rejected_witness :
  exists d' file',
    post_upload quiet_env no_headers (upload_of "clip.mp4" chunks_over_limit)
      (Some used_dir)
    = (d', file',
       inl (HTTPException 413
              "File too large. Maximum allowed size is 524288000 bytes (500MB)."))
    /\ entry (safe_filename_of (upload_of "clip.mp4" chunks_over_limit)) d' = None.
Proof.
  apply (oversize_rejected quiet_env no_headers (upload_of "clip.mp4" chunks_over_limit)
           (Some used_dir) chunks_over_limit).
  - apply quiet_env_quiet.
  - reflexivity.
  - apply chunks_over_limit_nonempty.
  - apply clip_storable. discriminate.
  - rewrite chunks_over_limit_total. lia.
  - intros h. discriminate.
Defined.

(** ** C3: the boundary *)

(** C3.  Both comparisons are strict.  The pre-check accepts a declared
    size of exactly the maximum and refuses one byte more with the 413
    error.  In a quiet environment, for a storable file name and a request
    that passes the pre-check, a stream of exactly the maximum is saved, and
    a stream of one byte more ends in the 413 error. *)
Theorem size_boundary (env : environment) (request : Request) (file : UploadFile)
  (d : disk) (chunks : list bytes) (declared : option Z) :
  quiet env ->
  pending file = map inr chunks ->
  Forall (fun c => c <> []) chunks ->
  storable (safe_filename_of file) d ->
  _validate_content_length request = inr declared ->
  (_validate_content_length (with_content_length "524288000")
   = inr (Some MAX_VIDEO_SIZE_BYTES)
   /\ _validate_content_length (with_content_length "524288001")
      = inl (HTTPException HTTP_413_REQUEST_ENTITY_TOO_LARGE too_large_detail)
   /\ post_upload env (with_content_length "524288001") file d
      = (d, file, inl (HTTPException HTTP_413_REQUEST_ENTITY_TOO_LARGE too_large_detail)))
  /\ (total_len chunks = MAX_VIDEO_SIZE_BYTES ->
      exists d' file',
        post_upload env request file d
        = (d', file',
           inr (mkUploadSuccessResponse (safe_filename_of file) MAX_VIDEO_SIZE_BYTES
                  "Upload successful"))
        /\ entry (safe_filename_of file) d' = Some (File (concat chunks)))
  /\ (total_len chunks = MAX_VIDEO_SIZE_BYTES + 1 ->
      exists d' file',
        post_upload env request file d
        = (d', file',
           inl (HTTPException HTTP_413_REQUEST_ENTITY_TOO_LARGE too_large_detail))).
Proof.
  intros Hq Hp Hne Hst Hv. split; [|split].
  - split; [reflexivity|]. split; [reflexivity|].
    by apply (post_upload_declared _ _ _ _ "524288001" 524288001).
  - intros Ht. unfold post_upload. rewrite Hv.
    destruct (upload_video_within env request file d chunks Hq Hp Hne Hst)
      as (d' & file' & E & Hentry & _); [lia|].
    exists d', file'. by rewrite E, Ht.
  - intros Ht. unfold post_upload. rewrite Hv.
    destruct (upload_video_exceeds env request file d chunks Hq Hp Hne Hst)
      as (d' & file' & E & _); [lia|].
    by exists d', file'.
Qed.

Lemma size_boundary_witness :
  (exists d' file',
     post_upload quiet_env (with_content_length "524288000")
       (upload_of "clip.mp4" chunks_at_limit) None
     = (d', file',
        inr (mkUploadSuccessResponse
               (safe_filename_of (upload_of "clip.mp4" chunks_at_limit)) 524288000
               "Upload successful")))
  /\ (exists d' file',
        post_upload quiet_env no_headers (upload_of "clip.mp4" chunks_over_limit) None
        = (d', file',
           inl (HTTPException 413
                  "File too large. Maximum allowed size is 524288000 bytes (500MB)."))).
Proof.
  split.
  - destruct (size_boundary quiet_env (with_content_length "524288000")
                (upload_of "clip.mp4" chunks_at_limit) None chunks_at_limit
                (Some 524288000)) as (_ & Hat & _).
    + apply quiet_env_quiet.
    + reflexivity.
    + apply chunks_at_limit_nonempty.
    + apply clip_storable. discriminate.
    + reflexivity.
    + destruct (Hat chunks_at_limit_total) as (d' & file' & E & _).
      exists d', file'. exact E.
  - destruct (size_boundary quiet_env no_headers
                (upload_of "clip.mp4" chunks_over_limit) None chunks_over_limit
                None) as (_ & _ & Hover).
    + apply quiet_env_quiet.
    + reflexivity.
    + apply chunks_over_limit_nonempty.
    + apply clip_storable. discriminate.
    + reflexivity.
    + exact (Hover chunks_over_limit_total).
Defined.

(** ** C4: the sanitized file name *)

(** C4, as stated, fails: the sanitized name is not always the final path
    component, because white space at its ends is stripped as well. *)
Lemma trailing_space_is_stripped :
  final_component (py "clip.mp4 ") = py "clip.mp4 "
  /\ safe_filename_of (upload_of "clip.mp4 " []) = py "clip.mp4"
  /\ py "clip.mp4" <> py "clip.mp4 ".
Proof. split; [reflexivity|]. split; [reflexivity | discriminate]. Qed.

(** C4, amended.  The sanitized name is the final path component of the
    client's name with the white space at both ends stripped: the component
    is the sanitized name between two runs of white space, and the
    sanitized name itself neither starts nor ends with white space.  It
    holds no separator; ["../../etc/passwd"] gives ["passwd"] and
    ["clip.mp4 "] gives ["clip.mp4"].  It is empty exactly when the final
    component is empty or made of white space only, which covers the empty
    name and every name that ends in a separator.  Whenever it is empty and
    the directory preparation has gone through, the handler ends in the 400
    error, without touching the upload, and every entry of the directory is
    as before: no destination file has been created. *)
Theorem sanitized_filename (env : environment) (request : Request)
  (file : UploadFile) (d : disk) :
  can_prepare env d ->
  (exists lead trail,
     final_component (default [] (file_filename file))
     = lead ++ safe_filename_of file ++ trail
     /\ forallb py_isspace lead = true /\ forallb py_isspace trail = true)
  /\ (forall c s', safe_filename_of file = c :: s' -> py_isspace c = false)
  /\ (forall c s', safe_filename_of file = s' ++ [c] -> py_isspace c = false)
  /\ (sep ∉ safe_filename_of file)
  /\ safe_filename_of (upload_of "../../etc/passwd" []) = py "passwd"
  /\ safe_filename_of (upload_of "clip.mp4 " []) = py "clip.mp4"
  /\ (safe_filename_of file = []
      <-> forallb py_isspace (final_component (default [] (file_filename file))) = true)
  /\ ((default [] (file_filename file) = []
       \/ exists pre, default [] (file_filename file) = pre ++ [sep]) ->
      safe_filename_of file = [])
  /\ (safe_filename_of file = [] ->
      exists d',
        upload_video env request file d
        = (d', file, inl (HTTPException HTTP_400_BAD_REQUEST "Filename is required."))
        /\ forall name, entry name d' = entry name d).
Proof.
  intros Hp.
  assert (safe_filename_of file
          = strip (final_component (default [] (file_filename file)))) as Hsafe.
  { unfold safe_filename_of. by rewrite basename_final_component. }
  split; [rewrite Hsafe; apply strip_spec|].
  split; [intros c s'; rewrite Hsafe; apply strip_head|].
  split; [intros c s'; rewrite Hsafe; apply strip_last|].
  split; [unfold safe_filename_of; apply strip_no_sep, basename_no_sep|].
  split; [reflexivity|]. split; [reflexivity|].
  split; [rewrite Hsafe; apply strip_empty_iff|]. split.
  - unfold safe_filename_of. intros [-> | [pre ->]]; [reflexivity|].
    by rewrite basename_ends_with_sep.
  - intros Hs. destruct (ensure_ok_disk env d Hp) as (dir & E & Hentry & _).
    exists (Some dir). split; [|exact Hentry].
    unfold upload_video. by rewrite E, Hs.
Qed.

Lemma sanitized_filename_witness :
  (exists d',
     upload_video quiet_env no_headers (upload_of "videos/" [[Byte.x01]]) (Some used_dir)
     = (d', upload_of "videos/" [[Byte.x01]],
        inl (HTTPException 400 "Filename is required."))
     /\ forall name, entry name d' = entry name (Some used_dir))
  /\ (exists d',
        upload_video quiet_env no_headers (upload_of "videos/  " [[Byte.x01]])
          (Some used_dir)
        = (d', upload_of "videos/  " [[Byte.x01]],
           inl (HTTPException 400 "Filename is required."))
        /\ forall name, entry name d' = entry name (Some used_dir)).
Proof.
  split.
  - destruct (sanitized_filename quiet_env no_headers (upload_of "videos/" [[Byte.x01]])
                (Some used_dir)) as (_ & _ & _ & _ & _ & _ & _ & _ & H).
    + apply quiet_can_prepare, quiet_env_quiet.
    + apply H. reflexivity.
  - destruct (sanitized_filename quiet_env no_headers
                (upload_of "videos/  " [[Byte.x01]]) (Some used_dir))
      as (_ & _ & _ & _ & _ & _ & Hiff & _ & H).
    + apply quiet_can_prepare, quiet_env_quiet.
    + apply H, Hiff. reflexivity.
Defined.

(** ** C10: the names ["."] and [".."] *)

(** C10.  A name whose final path component is ["."] or [".."] is its own
    sanitized name, which is not empty.  Once the directory preparation has
    gone through, the handler tries to open that name, the open is refused
    with an [IsADirectoryError] because the name denotes a directory, and
    the request ends in the 500 error of the storage failure, not in the 400
    error; the upload is closed and the disk is as the preparation left
    it. *)
Theorem dot_names_end_in_500 (env : environment) (request : Request)
  (file : UploadFile) (d : disk) (name : str) :
  file_filename file = Some name ->
  final_component name = dot \/ final_component name = dotdot ->
  can_prepare env d ->
  safe_filename_of file = final_component name
  /\ safe_filename_of file <> []
  /\ exists dir exc,
       ensure_upload_dir_exists env d = (Some dir, inr tt)
       /\ exn_cls exc = IsADirectoryError
       /\ open_wb env (safe_filename_of file) (Some dir) = (Some dir, inl exc)
       /\ upload_video env request file d
          = (Some dir, close file,
             inl (HTTPException HTTP_500_INTERNAL_SERVER_ERROR
                    ("Failed to save uploaded file: " +:+ exn_msg exc))).
Proof.
  intros Hf Hdot Hp.
  assert (safe_filename_of file = final_component name
          /\ is_dot_name (safe_filename_of file) = true) as [Hs Hd].
  { unfold safe_filename_of. rewrite Hf. simpl default.
    rewrite basename_final_component. destruct Hdot as [-> | ->]; by split. }
  assert (safe_filename_of file <> []) as Hne.
  { rewrite Hs. destruct Hdot as [-> | ->]; discriminate. }
  assert (has_nul (safe_filename_of file) = false) as Hnul.
  { rewrite Hs. destruct Hdot as [-> | ->]; reflexivity. }
  split; [exact Hs|]. split; [exact Hne|].
  destruct (upload_video_reaches_receive env request file d Hp Hne) as (dir & E & _ & U).
  exists dir, (Exn IsADirectoryError "Is a directory").
  split; [exact E|]. split; [reflexivity|].
  assert (open_wb env (safe_filename_of file) (Some dir)
          = (Some dir, inl (Exn IsADirectoryError "Is a directory"))) as Ho.
  { unfold open_wb, open_error. by rewrite Hnul, Hd. }
  split; [exact Ho|].
  rewrite U. unfold receive, stream_to_disk. rewrite Ho.
  unfold unlink. rewrite Hd. reflexivity.
Qed.

Lemma dot_names_end_in_500_witness :
  exists exc,
    exn_cls exc = IsADirectoryError
    /\ upload_video quiet_env no_headers (upload_of "videos/.." [[Byte.x01]])
         (Some used_dir)
       = (Some (Directory 3 0x1c0 (d_entries used_dir)),
          close (upload_of "videos/.." [[Byte.x01]]),
          inl (HTTPException 500 ("Failed to save uploaded file: " +:+ exn_msg exc))).
Proof.
  destruct (dot_names_end_in_500 quiet_env no_headers (upload_of "videos/.." [[Byte.x01]])
              (Some used_dir) (py "videos/..")) as (_ & _ & dir & exc & E & Hc & _ & U).
  - reflexivity.
  - right. reflexivity.
  - apply quiet_can_prepare, quiet_env_quiet.
  - exists exc. split; [exact Hc|]. injection E as <-. exact U.
Defined.

(** * Further properties of the code *)

(** ** The outcomes of the handler and of the pre-check *)

Lemma ensure_result_cause (env : environment) (d : disk) :
  snd (ensure_upload_dir_exists env d) = inr tt
  \/ exists exc,
       snd (ensure_upload_dir_exists env d)
       = inl (HTTPException HTTP_500_INTERNAL_SERVER_ERROR
                ("Failed to prepare upload directory: " +:+ exn_msg exc)).
Proof.
  destruct (mkdir env d) as [d1 [e|[]]] eqn:Hm.
  - right. exists e. unfold ensure_upload_dir_exists. by rewrite Hm.
  - destruct d1 as [dir|].
    + rewrite (ensure_after_mkdir env _ dir Hm).
      destruct (chmod_fault env) as [e|]; [|by left].
      destruct (is_PermissionError e); [by left | right; by exists e].
    + unfold mkdir in Hm. destruct d; [discriminate|].
      destruct (mkdir_fault env); discriminate.
Qed.

Lemma receive_result (env : environment) (dest : str) (file : UploadFile) (d : disk) :
  (exists total_written, (receive env dest file d).2 = inr total_written)
  \/ (receive env dest file d).2
     = inl (HTTPException HTTP_413_REQUEST_ENTITY_TOO_LARGE too_large_detail)
  \/ (exists exc,
        (receive env dest file d).2
        = inl (HTTPException HTTP_500_INTERNAL_SERVER_ERROR
                 ("Failed to save uploaded file: " +:+ exn_msg exc))).
Proof.
  unfold receive. pose proof (stream_to_disk_result env dest file d) as H.
  destruct (stream_to_disk env dest file d) as [[d1 file1] [[e|code detail]|total]];
    simpl in *.
  - right. right. by exists e.
  - destruct H as [-> ->]. right. by left.
  - left. by exists total.
Qed.

Lemma validate_result (request : Request) :
  match _validate_content_length request with
  | inr None => headers_get "content-length" (headers request) = None
  | inr (Some size) =>
      size <= MAX_VIDEO_SIZE_BYTES
      /\ exists h, headers_get "content-length" (headers request) = Some h
                   /\ int h = inr size
  | inl exc =>
      exc = HTTPException HTTP_400_BAD_REQUEST "Invalid Content-Length header."
      \/ exc = HTTPException HTTP_413_REQUEST_ENTITY_TOO_LARGE too_large_detail
  end.
Proof.
  unfold _validate_content_length.
  destruct (headers_get "content-length" (headers request)) as [h|]; [|reflexivity].
  destruct (int h) as [e|n] eqn:E.
  - rewrite (int_raises_ValueError h e E). by left.
  - destruct (Z.ltb_spec MAX_VIDEO_SIZE_BYTES n); [by right|].
    split; [lia|]. by exists h.
Qed.

(** X1.  Once the handler is called, it turns every exception that one of
    its calls raises into an [HTTPException] of its own.  Whatever the
    environment refuses and whatever the reads return or raise (exceptions
    are instances of [Exception], see [exn_class]), the handler ends in one
    of five ways: with the success response, with the 400 error for the
    file name, with the 413 error, or with a 500 error that carries the
    cause of a failed preparation or of a failed save.  It produces no other
    status: the 415 that the route declares is never raised. *)
Theorem upload_video_outcomes (env : environment) (request : Request)
  (file : UploadFile) (d : disk) :
  (exists resp, (upload_video env request file d).2 = inr resp)
  \/ (upload_video env request file d).2
     = inl (HTTPException HTTP_400_BAD_REQUEST "Filename is required.")
  \/ (upload_video env request file d).2
     = inl (HTTPException HTTP_413_REQUEST_ENTITY_TOO_LARGE too_large_detail)
  \/ (exists exc,
        (upload_video env request file d).2
        = inl (HTTPException HTTP_500_INTERNAL_SERVER_ERROR
                 ("Failed to prepare upload directory: " +:+ exn_msg exc)))
  \/ (exists exc,
        (upload_video env request file d).2
        = inl (HTTPException HTTP_500_INTERNAL_SERVER_ERROR
                 ("Failed to save uploaded file: " +:+ exn_msg exc))).
Proof.
  unfold upload_video.
  pose proof (ensure_result_cause env d) as Hp.
  destruct (ensure_upload_dir_exists env d) as [d0 [exc|u]]; simpl in Hp.
  { destruct Hp as [Hp | [e [= ->]]]; [discriminate|]. simpl. do 3 right.
    left. by exists e. }
  destruct (safe_filename_of file) as [|c name] eqn:Hs; [simpl; auto 6|].
  rewrite <- Hs.
  pose proof (receive_result env (safe_filename_of file) file d0) as Hr.
  destruct (receive env (safe_filename_of file) file d0) as [[d1 file1] [exc|total]];
    simpl in *.
  - destruct Hr as [[t Ht] | [[= ->] | [e [= ->]]]]; [discriminate | auto 6 |].
    do 4 right. by exists e.
  - left. eauto.
Qed.

(** X2.  The pre-check has four outcomes and no other.  It returns no size
    exactly when there is no [Content-Length] header; a size it returns is
    the value [int] read from the first such header and is at most the
    maximum; and it raises nothing but the 400 error for the header and the
    413 error. *)
Theorem precheck_outcomes (request : Request) :
  (_validate_content_length request = inr None
   <-> headers_get "content-length" (headers request) = None)
  /\ (forall size, _validate_content_length request = inr (Some size) ->
        size <= MAX_VIDEO_SIZE_BYTES
        /\ exists h, headers_get "content-length" (headers request) = Some h
                     /\ int h = inr size)
  /\ (forall exc, _validate_content_length request = inl exc ->
        exc = HTTPException HTTP_400_BAD_REQUEST "Invalid Content-Length header."
        \/ exc = HTTPException HTTP_413_REQUEST_ENTITY_TOO_LARGE too_large_detail).
Proof.
  pose proof (validate_result request) as Hv.
  split; [|split].
  - split.
    + intros E. by rewrite E in Hv.
    + apply validate_absent.
  - intros size E. by rewrite E in Hv.
  - intros exc E. by rewrite E in Hv.
Qed.

(** ** Preparing twice *)

Lemma ensure_existing (env : environment) (dir : directory) :
  ensure_upload_dir_exists env (Some dir) =
    match chmod_fault env with
    | None => (Some (Directory (d_ino dir) mode_0o700 (d_entries dir)), inr tt)
    | Some e =>
        if is_PermissionError e then (Some dir, inr tt)
        else (Some dir,
              inl (HTTPException HTTP_500_INTERNAL_SERVER_ERROR
                     ("Failed to prepare upload directory: " +:+ exn_msg e)))
    end.
Proof. by apply ensure_after_mkdir. Qed.

(** X3.  A second preparation in the same environment changes nothing and
    has the outcome of the first, whether the first succeeded or failed and
    whether the directory existed or not. *)
Theorem prepare_twice (env : environment) (d : disk) :
  ensure_upload_dir_exists env (fst (ensure_upload_dir_exists env d))
  = ensure_upload_dir_exists env d.
Proof.
  assert (forall dir,
            ensure_upload_dir_exists env (fst (ensure_upload_dir_exists env (Some dir)))
            = ensure_upload_dir_exists env (Some dir)) as Hexisting.
  { intros dir. rewrite (ensure_existing env dir).
    destruct (chmod_fault env) as [e|] eqn:He.
    - destruct (is_PermissionError e) eqn:Hpe; simpl;
        by rewrite ensure_existing, He, Hpe.
    - simpl. by rewrite ensure_existing, He. }
  destruct d as [dir|]; [apply Hexisting|].
  destruct (mkdir_fault env) as [e|] eqn:Hm.
  - rewrite (ensure_mkdir_refused env e Hm). simpl. apply ensure_mkdir_refused, Hm.
  - assert (mkdir env None
            = (Some (Directory (fresh_ino env) (N.ldiff 0x1ff (umask env)) ∅), inr tt))
      as Hmk by (unfold mkdir; by rewrite Hm).
    rewrite (ensure_after_mkdir env None _ Hmk), <- ensure_existing.
    apply Hexisting.
Qed.

(** ** What a success says about the disk *)

Lemma open_wb_inv (env : environment) (dest : str) (d d1 : disk) :
  open_wb env dest d = (d1, inr tt) ->
  exists dir,
    d = Some dir
    /\ d1 = Some (Directory (d_ino dir) (d_mode dir) (<[dest := File []]> (d_entries dir))).
Proof.
  unfold open_wb, open_error. destruct (has_nul dest); [discriminate|].
  destruct d as [dir|]; [|discriminate]. intros H. exists dir. split; [reflexivity|].
  destruct (is_dot_name dest); [discriminate|].
  destruct (d_entries dir !! dest) as [[c|]|]; try discriminate;
    destruct (open_fault env); try discriminate; by injection H as <-.
Qed.

(** A loop that ends without an exception has appended every chunk it read. *)
Lemma write_loop_success (env : environment) (dest : str) (reads : list (exn + bytes)) :
  forall (k : nat) (total : Z) (dir : directory) (content : bytes)
         (d' : disk) (rest : list (exn + bytes)) (t : Z),
    d_entries dir !! dest = Some (File content) ->
    total <= MAX_VIDEO_SIZE_BYTES ->
    write_loop env dest reads k total (Some dir) = (d', rest, inr t) ->
    d' = Some (Directory (d_ino dir) (d_mode dir)
                 (<[dest := File (content ++ concat (chunks_read reads))]> (d_entries dir)))
    /\ t = total + total_len (chunks_read reads)
    /\ t <= MAX_VIDEO_SIZE_BYTES.
Proof.
  assert (forall (total : Z) (dir : directory) (content : bytes),
            d_entries dir !! dest = Some (File content) ->
            total <= MAX_VIDEO_SIZE_BYTES ->
            Some dir = Some (Directory (d_ino dir) (d_mode dir)
                               (<[dest := File (content ++ [])]> (d_entries dir)))
            /\ total = total + 0 /\ total <= MAX_VIDEO_SIZE_BYTES) as Hstop.
  { intros total dir content Hd Hle. rewrite app_nil_r, insert_id by done.
    destruct dir. split; [done | lia]. }
  induction reads as [|r reads IH]; intros k total dir content d' rest t Hd Hle; simpl.
  - intros [= <- <- <-]. by apply Hstop.
  - unfold loop_body. destruct r as [e|[|b c]]; [discriminate| |].
    + intros [= <- <- <-]. by apply Hstop.
    + destruct (Z.ltb_spec MAX_VIDEO_SIZE_BYTES (total + len (b :: c))) as [|Hin];
        [discriminate|].
      unfold write. destruct (write_fault env k); [discriminate|]. rewrite Hd.
      intros H.
      apply (IH _ _ _ (content ++ b :: c)) in H; [|apply lookup_insert_eq | exact Hin].
      simpl in H. rewrite insert_insert_eq, <- app_assoc in H.
      destruct H as (-> & -> & Ht).
      split; [reflexivity|]. simpl total_len. split; lia.
Qed.

(** X4.  Whenever the handler answers with the success response, whatever
    the environment and the stream were, the response names the sanitized
    file name, the file of that name holds exactly the chunks read up to the
    end of the stream, in order, [size_bytes] is the number of bytes it
    holds and is at most the maximum, and the upload is closed. *)
Theorem success_means_saved (env : environment) (request : Request)
  (file : UploadFile) (d : disk) (resp : UploadSuccessResponse) :
  (upload_video env request file d).2 = inr resp ->
  filename resp = safe_filename_of file
  /\ entry (safe_filename_of file) (upload_video env request file d).1.1
     = Some (File (concat (chunks_read (pending file))))
  /\ size_bytes resp = len (concat (chunks_read (pending file)))
  /\ size_bytes resp <= MAX_VIDEO_SIZE_BYTES
  /\ closed (upload_video env request file d).1.2 = true.
Proof.
  unfold upload_video.
  destruct (ensure_upload_dir_exists env d) as [d0 [exc|u]]; [discriminate|].
  destruct (safe_filename_of file) as [|c0 name] eqn:Hs; [discriminate|]. rewrite <- Hs.
  unfold receive, stream_to_disk.
  destruct (open_wb env (safe_filename_of file) d0) as [d1 [exc|[]]] eqn:Ho;
    [discriminate|].
  destruct (open_wb_inv env _ d0 d1 Ho) as (dir & -> & ->).
  destruct (write_loop env (safe_filename_of file) (pending file) 0 0 _)
    as [[d2 rest] [[exc|code detail]|t]] eqn:Hw; try discriminate.
  simpl. intros [= <-]. simpl.
  apply (write_loop_success env _ _ _ _ _ []) in Hw;
    [|apply lookup_insert_eq | by vm_compute].
  destruct Hw as (-> & -> & Ht). simpl.
  rewrite lookup_insert_eq, <- total_len_concat.
  repeat split; try done; lia.
Qed.

Lemma success_means_saved_witness :
  entry (py "clip.mp4")
    (upload_video quiet_env no_headers
       (upload_reading "clip.mp4" [inr [Byte.x01]; inr []; inr [Byte.x02]])
       (Some used_dir)).1.1
  = Some (File [Byte.x01]).
Proof.
  apply (success_means_saved quiet_env no_headers
           (upload_reading "clip.mp4" [inr [Byte.x01]; inr []; inr [Byte.x02]])
           (Some used_dir)
           (mkUploadSuccessResponse (py "clip.mp4") 1 "Upload successful")).
  vm_compute. reflexivity.
Defined.

(** ** What a failure leaves on the disk *)

Lemma unlink_clears (env : environment) (dest : str) (d : disk) :
  unlink_fault env = None -> is_dot_name dest = false ->
  entry dest (fst (unlink env dest d)) = None
  \/ entry dest (fst (unlink env dest d)) = Some Dir.
Proof.
  intros Hu Hdot. unfold unlink. destruct d as [dir|]; [|by left].
  rewrite Hdot. destruct (d_entries dir !! dest) as [[c|]|] eqn:E; simpl.
  - rewrite Hu. simpl. left. apply lookup_delete_eq.
  - by right.
  - by left.
Qed.

Lemma write_loop_limit_clears (env : environment) (dest : str)
  (reads : list (exn + bytes)) :
  unlink_fault env = None -> is_dot_name dest = false ->
  forall (k : nat) (total : Z) (d : disk) (code : Z) (detail : string),
    (write_loop env dest reads k total d).2 = inl (HTTPException code detail) ->
    entry dest (write_loop env dest reads k total d).1.1 = None
    \/ entry dest (write_loop env dest reads k total d).1.1 = Some Dir.
Proof.
  intros Hu Hdot. induction reads as [|r reads IH]; intros k total d code detail; simpl;
    [discriminate|].
  unfold loop_body. destruct r as [e|[|b c]]; simpl; try discriminate.
  destruct (MAX_VIDEO_SIZE_BYTES <? total + len (b :: c)); simpl.
  - intros _. by apply unlink_clears.
  - destruct (write env dest k (b :: c) d) as [d1 [e|u]]; simpl; [discriminate|].
    apply IH.
Qed.

(** X5.  When the unlink is not refused and the destination is not ["."] or
    [".."], every failure of the [try] statement, be it the 413 error or a
    500 error after a refused open, read or write, leaves no regular file
    under the destination name: not a partial one, and not one that an
    earlier request had saved there. *)
Theorem failure_leaves_no_file (env : environment) (dest : str) (file : UploadFile)
  (d : disk) (exc : raised) :
  unlink_fault env = None ->
  is_dot_name dest = false ->
  (receive env dest file d).2 = inl exc ->
  entry dest (receive env dest file d).1.1 = None
  \/ entry dest (receive env dest file d).1.1 = Some Dir.
Proof.
  intros Hu Hdot. unfold receive, stream_to_disk.
  destruct (open_wb env dest d) as [d1 [e|u]]; simpl.
  { intros _. by apply unlink_clears. }
  pose proof (write_loop_limit_clears env dest (pending file) Hu Hdot 0%nat 0 d1) as Hl.
  destruct (write_loop env dest (pending file) 0 0 d1)
    as [[d2 rest] [[e|code detail]|t]]; simpl in *.
  - intros _. by apply unlink_clears.
  - intros _. by apply (Hl code detail).
  - discriminate.
Qed.

Lemma failure_leaves_no_file_witness :
  (receive full_disk_env (py "clip.mp4")
     (upload_of "clip.mp4" [[Byte.x01]; [Byte.x02]]) (Some used_dir)).2
  = inl (HTTPException 500 "Failed to save uploaded file: No space left on device")
  /\ (entry (py "clip.mp4")
        (receive full_disk_env (py "clip.mp4")
           (upload_of "clip.mp4" [[Byte.x01]; [Byte.x02]]) (Some used_dir)).1.1 = None
      \/ entry (py "clip.mp4")
           (receive full_disk_env (py "clip.mp4")
              (upload_of "clip.mp4" [[Byte.x01]; [Byte.x02]]) (Some used_dir)).1.1
         = Some Dir).
Proof.
  split; [reflexivity|].
  apply (failure_leaves_no_file full_disk_env (py "clip.mp4")
           (upload_of "clip.mp4" [[Byte.x01]; [Byte.x02]]) (Some used_dir)
           (HTTPException 500 "Failed to save uploaded file: No space left on device"));
    reflexivity.
Defined.

(** ** The other entries of the directory *)

Section Frame.

Context (env : environment) (dest name : str).
Hypothesis Hname : name <> dest.







End Frame.



(** ** The sanitized name is stable *)

(** X7.  Sanitizing is idempotent: the sanitized name neither starts nor
    ends with white space, and an upload that is given the sanitized name of
    another as its file name gets that same name.  So the [filename] of a
    success response, sent back as the name of a later upload, denotes the
    same file. *)
Theorem sanitized_name_stable (file : UploadFile) (content_type : option string)
  (reads : list (exn + bytes)) (is_closed : bool) :
  safe_filename_of
    (mkUploadFile (Some (safe_filename_of file)) content_type reads is_closed)
  = safe_filename_of file
  /\ (forall c s', safe_filename_of file = c :: s' -> py_isspace c = false)
  /\ (forall c s', safe_filename_of file = s' ++ [c] -> py_isspace c = false).
Proof.
  split; [|split].
  - unfold safe_filename_of at 1. simpl.
    rewrite basename_no_sep_id; [apply strip_strip|].
    apply strip_no_sep, basename_no_sep.
  - intros c s'. apply strip_head.
  - intros c s'. apply strip_last.
Qed.

(** ** When the upload is closed *)

(** X8.  The handler closes an open upload exactly when it reaches the
    [try] statement: when the directory preparation goes through and the
    sanitized name is not empty.  On the two earlier exits, the 500 error of
    the preparation and the 400 error for the file name, the upload is left
    open. *)
Theorem closed_iff_try_reached (env : environment) (request : Request)
  (file : UploadFile) (d : disk) :
  closed file = false ->
  closed (upload_video env request file d).1.2 = true
  <-> can_prepare env d /\ safe_filename_of file <> [].
Proof.
  intros Hopen. split; [|intros [Hp Hs]; by apply upload_video_closed].
  pose proof (ensure_ok_iff env d) as Hiff. unfold upload_video.
  destruct (ensure_upload_dir_exists env d) as [d0 [exc|[]]]; simpl.
  { intros H. congruence. }
  destruct (safe_filename_of file) as [|c0 name]; simpl; [intros H; congruence|].
  intros _. split; [by apply Hiff | discriminate].
Qed.

Lemma closed_iff_try_reached_witness :
  closed (upload_video denied_env no_headers (upload_of "clip.mp4" [[Byte.x01]]) None).1.2
  = true
  /\ (can_prepare read_only_env (Some used_dir)
      /\ safe_filename_of (upload_of "clip.mp4" [[Byte.x01]]) <> [] ->
      False).
Proof.
  split.
  - apply (closed_iff_try_reached denied_env no_headers
             (upload_of "clip.mp4" [[Byte.x01]]) None eq_refl).
    split; [|discriminate]. split; [reflexivity | apply denied_env_tolerated].
  - intros H.
    apply (closed_iff_try_reached read_only_env no_headers
             (upload_of "clip.mp4" [[Byte.x01]]) (Some used_dir) eq_refl) in H.
    discriminate H.
Defined.

(** ** Where the loop stops *)

Lemma write_ok (env : environment) (dest : str) (k : nat) (chunk : bytes) (d : disk) :
  write_fault env k = None ->
  write env dest k chunk d = (fst (write env dest k chunk d), inr tt).
Proof.
  intros H. unfold write. rewrite H. destruct d as [dir|]; [|reflexivity].
  by destruct (d_entries dir !! dest) as [[c|]|].
Qed.

(** Chunks that are written without a refusal and stay within the limit
    take the loop to the reads that follow them. *)
Lemma write_loop_prefix (env : environment) (dest : str) (pre : list bytes)
  (tail : list (exn + bytes)) :
  Forall (fun c => c <> []) pre ->
  forall (k : nat) (total : Z) (d : disk),
    (forall i, (i < length pre)%nat -> write_fault env (k + i) = None) ->
    total + total_len pre <= MAX_VIDEO_SIZE_BYTES ->
    exists d',
      write_loop env dest (map inr pre ++ tail) k total d
      = write_loop env dest tail (k + length pre) (total + total_len pre) d'.
Proof.
  intros Hne. induction Hne as [|c pre Hc _ IH]; intros k total d Hw Hle.
  - exists d. simpl. by rewrite Nat.add_0_r, Z.add_0_r.
  - destruct c as [|b c]; [done|]. simpl map. simpl app. simpl write_loop.
    unfold loop_body. simpl total_len in Hle. pose proof (total_len_nonneg pre).
    destruct (Z.ltb_spec MAX_VIDEO_SIZE_BYTES (total + len (b :: c))); [lia|].
    rewrite write_ok by (rewrite <- (Nat.add_0_r k); apply Hw; simpl; lia).
    destruct (IH (S k) (total + len (b :: c)) (fst (write env dest k (b :: c) d)))
      as [d' E].
    + intros i Hi. replace (S k + i)%nat with (k + S i)%nat by lia.
      apply Hw. simpl. lia.
    + lia.
    + exists d'. rewrite E. simpl length. simpl total_len.
      by rewrite Nat.add_succ_r, Z.add_assoc.
Qed.

Lemma open_wb_not_refused (env : environment) (dest : str) (d : disk) :
  open_error env dest d = None -> snd (open_wb env dest d) = inr tt.
Proof. intros H. unfold open_wb. rewrite H. by destruct d. Qed.

(** X9.  Reading stops at the chunk that crosses the limit.  When the open
    is not refused and the chunks [pre] are written within the limit, a
    next chunk that takes the total over the maximum ends the [try]
    statement with the 413 error at once: the reads after it are never
    made and stay pending in the upload, which is closed. *)
Theorem reading_stops_at_limit (env : environment) (dest : str) (file : UploadFile)
  (d : disk) (pre : list bytes) (chunk : bytes) (rest : list (exn + bytes)) :
  open_error env dest d = None ->
  pending file = map inr pre ++ inr chunk :: rest ->
  Forall (fun c => c <> []) pre ->
  (forall i, (i < length pre)%nat -> write_fault env i = None) ->
  total_len pre <= MAX_VIDEO_SIZE_BYTES ->
  MAX_VIDEO_SIZE_BYTES < total_len pre + len chunk ->
  (receive env dest file d).2
  = inl (HTTPException HTTP_413_REQUEST_ENTITY_TOO_LARGE too_large_detail)
  /\ pending (receive env dest file d).1.2 = rest
  /\ closed (receive env dest file d).1.2 = true.
Proof.
  intros Ho Hp Hne Hw Hle Hover. unfold receive, stream_to_disk.
  pose proof (open_wb_not_refused env dest d Ho) as Hopen.
  destruct (open_wb env dest d) as [d1 [e|[]]]; [discriminate|]. rewrite Hp.
  destruct (write_loop_prefix env dest pre (inr chunk :: rest) Hne 0%nat 0 d1 Hw Hle)
    as [d' ->].
  simpl write_loop. unfold loop_body.
  destruct chunk as [|b chunk]; [simpl in Hover; unfold len in Hover; simpl in Hover; lia|].
  destruct (Z.ltb_spec MAX_VIDEO_SIZE_BYTES (0 + total_len pre + len (b :: chunk)));
    [|lia].
  by simpl.
Qed.

Lemma reading_stops_at_limit_witness :
  pending (receive quiet_env (py "clip.mp4")
             (upload_reading "clip.mp4"
                (map inr chunks_at_limit ++ inr [Byte.x00] :: [inr [Byte.x01]]))
             (Some used_dir)).1.2
  = [inr [Byte.x01]].
Proof.
  apply (reading_stops_at_limit quiet_env (py "clip.mp4")
           (upload_reading "clip.mp4"
              (map inr chunks_at_limit ++ inr [Byte.x00] :: [inr [Byte.x01]]))
           (Some used_dir) chunks_at_limit [Byte.x00] [inr [Byte.x01]]).
  - reflexivity.
  - reflexivity.
  - apply chunks_at_limit_nonempty.
  - reflexivity.
  - rewrite chunks_at_limit_total. lia.
  - rewrite chunks_at_limit_total. unfold MAX_VIDEO_SIZE_BYTES, len. simpl. lia.
Defined.

(** X10.  A read that raises an exception of a class under [Exception]
    (the classes of [exn_class]; cancellation is not among them) ends the
    request with the 500 error that carries the text of the exception: when
    the open is not refused and the
    chunks before it are written within the limit, the [try] statement ends
    in "Failed to save uploaded file" followed by the cause, the reads after
    the failed one are not made, and the upload is closed. *)
Theorem read_failure_reported (env : environment) (dest : str) (file : UploadFile)
  (d : disk) (pre : list bytes) (exc : exn) (rest : list (exn + bytes)) :
  open_error env dest d = None ->
  pending file = map inr pre ++ inl exc :: rest ->
  Forall (fun c => c <> []) pre ->
  (forall i, (i < length pre)%nat -> write_fault env i = None) ->
  total_len pre <= MAX_VIDEO_SIZE_BYTES ->
  (receive env dest file d).2
  = inl (HTTPException HTTP_500_INTERNAL_SERVER_ERROR
           ("Failed to save uploaded file: " +:+ exn_msg exc))
  /\ pending (receive env dest file d).1.2 = rest
  /\ closed (receive env dest file d).1.2 = true.
Proof.
  intros Ho Hp Hne Hw Hle. unfold receive, stream_to_disk.
  pose proof (open_wb_not_refused env dest d Ho) as Hopen.
  destruct (open_wb env dest d) as [d1 [e|[]]]; [discriminate|]. rewrite Hp.
  destruct (write_loop_prefix env dest pre (inl exc :: rest) Hne 0%nat 0 d1 Hw Hle)
    as [d' ->].
  by simpl.
Qed.

Lemma read_failure_reported_witness :
  (receive quiet_env (py "clip.mp4")
     (upload_reading "clip.mp4" [inr [Byte.x01]; inl connection_lost; inr [Byte.x02]])
     (Some used_dir)).2
  = inl (HTTPException 500 "Failed to save uploaded file: Connection reset by peer").
Proof.
  apply (read_failure_reported quiet_env (py "clip.mp4")
           (upload_reading "clip.mp4"
              [inr [Byte.x01]; inl connection_lost; inr [Byte.x02]])
           (Some used_dir) [[Byte.x01]] connection_lost [inr [Byte.x02]]).
  - reflexivity.
  - reflexivity.
  - repeat constructor. discriminate.
  - reflexivity.
  - by vm_compute.
Defined.

(** X11.  A write that is refused ends the request in the same way: when
    the chunks before it are written within the limit and the chunk itself
    would still fit, the [try] statement ends in the 500 error with the
    text of the exception of the write, and no further read is made. *)
Theorem write_failure_reported (env : environment) (dest : str) (file : UploadFile)
  (d : disk) (pre : list bytes) (chunk : bytes) (exc : exn)
  (rest : list (exn + bytes)) :
  open_error env dest d = None ->
  pending file = map inr pre ++ inr chunk :: rest ->
  Forall (fun c => c <> []) pre ->
  chunk <> [] ->
  (forall i, (i < length pre)%nat -> write_fault env i = None) ->
  write_fault env (length pre) = Some exc ->
  total_len pre + len chunk <= MAX_VIDEO_SIZE_BYTES ->
  (receive env dest file d).2
  = inl (HTTPException HTTP_500_INTERNAL_SERVER_ERROR
           ("Failed to save uploaded file: " +:+ exn_msg exc))
  /\ pending (receive env dest file d).1.2 = rest
  /\ closed (receive env dest file d).1.2 = true.
Proof.
  intros Ho Hp Hne Hc Hw Hfail Hle. unfold receive, stream_to_disk.
  pose proof (open_wb_not_refused env dest d Ho) as Hopen.
  pose proof (len_nonneg chunk) as Hnn.
  destruct (open_wb env dest d) as [d1 [e|[]]]; [discriminate|]. rewrite Hp.
  destruct (write_loop_prefix env dest pre (inr chunk :: rest) Hne 0%nat 0 d1 Hw)
    as [d' ->]; [lia|].
  simpl write_loop. unfold loop_body. destruct chunk as [|b chunk]; [done|].
  destruct (Z.ltb_spec MAX_VIDEO_SIZE_BYTES (0 + total_len pre + len (b :: chunk)));
    [lia|].
  unfold write. simpl Nat.add. rewrite Hfail. by simpl.
Qed.

Lemma write_failure_reported_witness :
  (receive full_disk_env (py "clip.mp4")
     (upload_of "clip.mp4" [[Byte.x01]; [Byte.x02]; [Byte.x03]]) (Some used_dir)).2
  = inl (HTTPException 500 "Failed to save uploaded file: No space left on device")
  /\ pending (receive full_disk_env (py "clip.mp4")
                (upload_of "clip.mp4" [[Byte.x01]; [Byte.x02]; [Byte.x03]])
                (Some used_dir)).1.2
     = [inr [Byte.x03]].
Proof.
  destruct (write_failure_reported full_disk_env (py "clip.mp4")
              (upload_of "clip.mp4" [[Byte.x01]; [Byte.x02]; [Byte.x03]]) (Some used_dir)
              [[Byte.x01]] [Byte.x02] (Exn OSError "No space left on device")
              [inr [Byte.x03]]) as (Hresult & Hpending & _).
  - reflexivity.
  - reflexivity.
  - repeat constructor. discriminate.
  - discriminate.
  - intros [|i] Hi; [reflexivity | simpl in Hi; lia].
  - reflexivity.
  - by vm_compute.
  - split; [exact Hresult | exact Hpending].
Defined.

(** ** The empty upload *)

(** X12.  An upload without content is accepted.  When the preparation goes
    through, the open is not refused and the name is storable, a stream
    whose first read already returns [b""] gives the success response with
    [size_bytes = 0], and the destination is an empty file afterwards: a
    file of that name saved earlier is truncated. *)
Theorem empty_upload_saved (env : environment) (request : Request)
  (file : UploadFile) (d : disk) :
  can_prepare env d ->
  open_fault env = None ->
  storable (safe_filename_of file) d ->
  (pending file = [] \/ exists rest, pending file = inr [] :: rest) ->
  (upload_video env request file d).2
  = inr (mkUploadSuccessResponse (safe_filename_of file) 0 "Upload successful")
  /\ entry (safe_filename_of file) (upload_video env request file d).1.1
     = Some (File []).
Proof.
  intros Hp Ho Hst Hempty.
  destruct (upload_video_reaches_receive env request file d Hp) as (dir & _ & Hentry & E).
  { apply Hst. }
  rewrite E. unfold receive, stream_to_disk.
  rewrite (open_wb_storable env _ dir Ho) by eauto using storable_prepared.
  destruct Hempty as [-> | [rest ->]]; simpl; by rewrite lookup_insert_eq.
Qed.

Lemma empty_upload_saved_witness :
  (upload_video denied_env no_headers (upload_of "clip.mp4" []) (Some used_dir)).2
  = inr (mkUploadSuccessResponse (py "clip.mp4") 0 "Upload successful")
  /\ entry (py "clip.mp4")
       (upload_video denied_env no_headers (upload_of "clip.mp4" []) (Some used_dir)).1.1
     = Some (File []).
Proof.
  apply (empty_upload_saved denied_env no_headers (upload_of "clip.mp4" [])
           (Some used_dir)).
  - split; [discriminate | apply denied_env_tolerated].
  - reflexivity.
  - apply clip_storable. discriminate.
  - by left.
Defined.
